(** * Line-movement and favorability engine of the player-props scraper

    A shallow embedding of [src/player_props.py]: the probability model
    ([american_to_implied], [get_projected_value]), the baseline store kept
    in the SQLite table [player_props] ([store_props],
    [remove_commenced_games] and the "earliest" query), the classifier
    [find_favorable_lines] and the ranking of its two result lists.

    Numbers.  American odds are integers ([Z]).  Python floats (points,
    probabilities, deltas) are modelled as exact rationals ([Q]) compared
    with [Qeq]; binary64 rounding is outside the model.

    Exceptions.  Python exceptions are values of [exn] carried by the
    [result] monad; a loop that is left through the function-wide
    [except Exception] keeps what it had appended so far. *)

From Stdlib Require Import NArith ZArith QArith Qabs Qfield Lia Lqa Bool.
From Stdlib Require Import Ascii String List Permutation Sorted.
Import ListNotations.

Open Scope string_scope.
Open Scope list_scope.

(** ** Exceptions *)

Inductive exn : Set :=
| ValueError
| KeyError
| TypeError
| ZeroDivisionError.

Inductive result (A : Type) : Type :=
| Ok (a : A)
| Raise (e : exn).

Arguments Ok {A} a.
Arguments Raise {A} e.

Definition bind {A B : Type} (c : result A) (k : A -> result B) : result B :=
  match c with
  | Ok a => k a
  | Raise e => Raise e
  end.

Notation "x <- c ;; k" := (bind c (fun x => k))
  (at level 61, c at next level, right associativity).

(** ** Comparisons on rationals, as booleans *)

Definition Qlt_bool (x y : Q) : bool := negb (Qle_bool y x).

(** ** Constants (lines 24-40) *)

Definition SELECTED_BOOK : string := "pinnacle".
Definition ATD_DELTA : Q := 1 # 100.

(** ** Probability model (lines 183-206) *)

Definition american_to_implied (odds : Z) : result Q :=
  if (odds =? 0)%Z then Raise ValueError
  else if (0 <? odds)%Z then Ok (100 / inject_Z (odds + 100))%Q
  else Ok (inject_Z (Z.abs odds) / inject_Z (Z.abs odds + 100))%Q.

Definition get_projected_value (over_odds under_odds : Z) (point_value : Q)
  : result Q :=
  over_prob <- american_to_implied over_odds ;;
  under_prob <- american_to_implied under_odds ;;
  let total_prob := (over_prob + under_prob)%Q in
  if Qeq_bool total_prob 0 then Raise ZeroDivisionError
  else
    let normalized_over_prob := (over_prob / total_prob)%Q in
    let normalized_under_prob := (under_prob / total_prob)%Q in
    Ok (normalized_over_prob * (point_value + (1 # 2))
        + normalized_under_prob * (point_value - (1 # 2)))%Q.

(** ** Strings: the few [str] methods the source uses, on ASCII text *)

Definition ascii_lower (c : ascii) : ascii :=
  let n := nat_of_ascii c in
  if (65 <=? n)%nat && (n <=? 90)%nat then ascii_of_nat (n + 32) else c.

Definition ascii_upper (c : ascii) : ascii :=
  let n := nat_of_ascii c in
  if (97 <=? n)%nat && (n <=? 122)%nat then ascii_of_nat (n - 32) else c.

(** [str.lower] *)
Fixpoint lower (s : string) : string :=
  match s with
  | EmptyString => EmptyString
  | String c s' => String (ascii_lower c) (lower s')
  end.

(** [str.capitalize] *)
Definition capitalize (s : string) : string :=
  match s with
  | EmptyString => EmptyString
  | String c s' => String (ascii_upper c) (lower s')
  end.

(** [s.split('_')], with the part read so far in [cur] *)
Fixpoint split_underscore (s cur : string) : list string :=
  match s with
  | EmptyString => [cur]
  | String c s' =>
      if (c =? "_")%char then cur :: split_underscore s' EmptyString
      else split_underscore s' (cur ++ String c EmptyString)
  end.

(** [' '.join(l)] *)
Fixpoint join_space (l : list string) : string :=
  match l with
  | [] => EmptyString
  | [w] => w
  | w :: l' => (w ++ " " ++ join_space l')%string
  end.

(** [s[:-4]] *)
Definition drop_last4 (s : string) : string :=
  substring 0 (String.length s - 4) s.

(** [x in [a, b, ...]] on strings *)
Definition in_list (x : string) (l : list string) : bool :=
  existsb (String.eqb x) l.

(** lines 227-244 *)
Definition transform_string (input_str : string) : string :=
  let parts := split_underscore input_str EmptyString in
  let transformed_str :=
    if (1 <? List.length parts)%nat then capitalize (nth 1 parts EmptyString)
    else capitalize (nth 0 parts EmptyString) in
  if (2 <? List.length parts)%nat
  then (transformed_str ++ " " ++ join_space (map capitalize (skipn 2 parts)))%string
  else transformed_str.

(** ** The provider's payload (spec section 6)

    An outcome is the dictionary with keys [description], [name], [price]
    and the optional [point]; [projected_value] is the key that
    [add_projected_values] adds. *)

Record outcome : Type := {
  description : string;
  name : string;
  price : Z;
  point : option Q;
  projected_value : option Q
}.

Record market : Type := {
  mk_key : string;
  mk_last_update : string;
  mk_outcomes : list outcome
}.

Record bookmaker : Type := {
  bk_key : string;
  bk_title : string;
  bk_markets : list market
}.

Record props : Type := {
  p_id : string;
  p_sport_key : string;
  p_commence_time : string;
  p_home_team : string;
  p_away_team : string;
  p_bookmakers : list bookmaker
}.

(** An entry of the list returned by [get_events]. *)
Record event : Type := {
  ev_id : string;
  ev_sport_key : string;
  ev_commence_time : string;
  ev_home_team : string;
  ev_away_team : string
}.

(** ** The table [player_props] (lines 725-739)

    A table is the list of its rows in rowid order.  [point_value] is
    [None] for SQL NULL. *)

Record row : Type := {
  event_id : string;
  event_name : string;
  sport_key : string;
  market_type : string;
  outcome_type : string;
  player_name : string;
  point_value : option Q;
  odds : Z;
  event_commence_time : string;
  updated_dttm : string
}.

Definition table : Type := list row.

(** PRIMARY KEY (event_id, market_type, outcome_type, player_name) *)
Definition same_key (r1 r2 : row) : bool :=
  (event_id r1 =? event_id r2) && (market_type r1 =? market_type r2)
  && (outcome_type r1 =? outcome_type r2) && (player_name r1 =? player_name r2).

(** INSERT OR REPLACE (lines 755-760): the row in conflict on the primary
    key is deleted and the new row gets a fresh rowid. *)
Definition insert_or_replace (t : table) (r : row) : table :=
  filter (fun x => negb (same_key x r)) t ++ [r].

(** The row of least [updated_dttm] (text order), the first of them in
    rowid order. *)
Fixpoint min_updated (best : row) (l : list row) : row :=
  match l with
  | [] => best
  | r :: l' =>
      if String.ltb (updated_dttm r) (updated_dttm best)
      then min_updated r l' else min_updated best l'
  end.

(** SELECT point_value, odds FROM player_props
    WHERE market_type=? AND outcome_type=? AND player_name=?
    ORDER BY updated_dttm ASC LIMIT 1; [fetchone]   (lines 343-348) *)
Definition select_earliest (t : table) (market_type_ outcome_type_ player_name_ : string)
  : option (option Q * Z) :=
  match filter (fun r => (market_type r =? market_type_)
                         && (outcome_type r =? outcome_type_)
                         && (player_name r =? player_name_)) t with
  | [] => None
  | r :: l => let m := min_updated r l in Some (point_value m, odds m)
  end.

(** DELETE FROM player_props WHERE event_commence_time < ?   (line 54);
    the parameter is the text SQLite receives for [current_time]. *)
Definition delete_commenced (t : table) (current_time : string) : table :=
  filter (fun r => negb (String.ltb (event_commence_time r) current_time)) t.

(** ** Result entries (lines 387-416)

    [e_is_favorable] is ['Y'] ([flag_Y]), ['N'] ([flag_N]) or [None]; [e_point] is the key
    [point], present only for an outcome that carries a point;
    [e_point_delta] is the key [point_delta], [0] when no delta applies.
    The text under the key [pinnacle] is kept as the values it prints. *)

Inductive flag : Set := flag_Y | flag_N.

Record result_entry : Type := {
  e_commence_time : string;
  e_event_name : string;
  e_source : string;
  e_player : string;
  e_type : string;
  e_bet_type : string;
  e_odds : Z;
  e_delta : Q;
  e_is_favorable : option flag;
  e_point_move : option Q;
  e_projected_value : option Q;
  e_pinnacle_projected_val : option Q;
  e_projected_val_delta : option Q;
  e_odds_pct_move : option Q;
  e_abs_point_move : option Q;
  e_abs_proj_delta : option Q;
  e_point : option Q;
  e_pinnacle : string * string * option Q * Z;
  e_point_delta : Q
}.

Inductive bucket : Set := DifferentPoints | SamePoints.

(** [d.get('point', 0)] *)
Definition get_point_0 (o : outcome) : Q :=
  match point o with
  | Some p => p
  | None => 0
  end.

(** lines 246-263 *)
Definition calculate_point_delta (outcome_ pin_outcome : outcome) : option Q :=
  match point outcome_ with
  | Some _ =>
      if name outcome_ =? "Over"
      then Some (get_point_0 pin_outcome - get_point_0 outcome_)%Q
      else Some (get_point_0 outcome_ - get_point_0 pin_outcome)%Q
  | None => None
  end.

(** The favorability flag, lines 355-376, for a baseline that was found. *)
Definition favorable_flag (outcome_type_ : string)
    (pin_current_point : option Q) (pin_current_odds : Z)
    (earliest_point : option Q) (earliest_odds : Z) : option flag :=
  if outcome_type_ =? "Over" then
    match pin_current_point, earliest_point with
    | Some p, Some e =>
        if Qlt_bool e p then Some flag_Y
        else if Qeq_bool p e && (pin_current_odds <? earliest_odds)%Z then Some flag_Y
        else Some flag_N
    | _, _ => None
    end
  else if outcome_type_ =? "Under" then
    match pin_current_point, earliest_point with
    | Some p, Some e =>
        if Qlt_bool p e then Some flag_Y
        else if Qeq_bool p e && (pin_current_odds <? earliest_odds)%Z then Some flag_Y
        else Some flag_N
    | _, _ => None
    end
  else if outcome_type_ =? "Yes" then
    if (pin_current_odds <? earliest_odds)%Z then Some flag_Y else Some flag_N
  else None.

(** Lines 341-380: the baseline lookup and what is derived from it,
    [(point_move, odds_pct_move, is_favorable)]. *)
Definition compare_with_earliest (t : table)
    (market_type_ outcome_type_ player_name_ : string)
    (pin_current_point : option Q) (pin_current_odds : Z)
  : result (option Q * option Q * option flag) :=
  if in_list outcome_type_ ["Over"; "Under"; "Yes"] then
    match select_earliest t market_type_ outcome_type_ player_name_ with
    | Some (earliest_point, earliest_odds) =>
        let point_move :=
          match pin_current_point, earliest_point with
          | Some p, Some e => Some (p - e)%Q
          | _, _ => None
          end in
        pin_now <- american_to_implied pin_current_odds ;;
        pin_then <- american_to_implied earliest_odds ;;
        Ok (point_move, Some (pin_now - pin_then)%Q,
            favorable_flag outcome_type_ pin_current_point pin_current_odds
                           earliest_point earliest_odds)
    | None => Ok (None, None, None)
    end
  else Ok (None, None, None).

(** Lines 419-432: the bucket of an entry, [None] when it is dropped. *)
Definition categorize (outcome_ pin_outcome : outcome)
    (pin_prob prob_delta : Q) (point_delta : option Q) : result (option bucket) :=
  let outcome_type_ := name outcome_ in
  if negb (in_list outcome_type_ ["No"; "Yes"; "Under"; "Over"]) then Ok None
  else
    match point outcome_ with
    | None =>
        if negb (outcome_type_ =? "No") && Qle_bool ATD_DELTA prob_delta
           && (price pin_outcome <=? 300)%Z
        then Ok (Some SamePoints) else Ok None
    | Some current_point =>
        let same_points :=
          if Qeq_bool current_point (get_point_0 pin_outcome) && Qlt_bool 3 prob_delta
          then Some SamePoints else None in
        if (((outcome_type_ =? "Over")
             && Qlt_bool current_point (get_point_0 pin_outcome))
            || ((outcome_type_ =? "Under")
                && Qlt_bool (get_point_0 pin_outcome) current_point))
           && Qle_bool (1 # 2) pin_prob
        then
          match point_delta with
          | None => Raise TypeError
          | Some d =>
              if Qle_bool 1 d || Qle_bool 2 prob_delta
              then Ok (Some DifferentPoints) else Ok same_points
          end
        else Ok same_points
    end.

(** ** Ranking (lines 438-440)

    [list.sort(key=lambda x: (x.get('point_delta', 0), x['delta']),
    reverse=True)]: a stable sort, descending in the pair. *)

Definition sort_key (e : result_entry) : Q * Q := (e_point_delta e, e_delta e).

(** tuple comparison [a < b] *)
Definition key_ltb (a b : Q * Q) : bool :=
  Qlt_bool (fst a) (fst b) || (Qeq_bool (fst a) (fst b) && Qlt_bool (snd a) (snd b)).

Fixpoint insert_desc (x : result_entry) (l : list result_entry) : list result_entry :=
  match l with
  | [] => [x]
  | y :: l' =>
      if key_ltb (sort_key x) (sort_key y) then y :: insert_desc x l' else x :: l
  end.

Definition sort_desc (l : list result_entry) : list result_entry :=
  fold_right insert_desc [] l.

(** ** Loops that an exception leaves

    [for_each body l s] runs [body] over [l] from state [s]; a raised
    exception stops the loop and is handed on with the state reached. *)

Fixpoint for_each {A S : Type} (body : A -> S -> S * option exn)
    (l : list A) (s : S) : S * option exn :=
  match l with
  | [] => (s, None)
  | x :: l' =>
      match body x s with
      | (s', None) => for_each body l' s'
      | (s', Some e) => (s', Some e)
      end
  end.

(** The two lists [results_with_different_points], [results_with_same_points]. *)
Definition results : Type := (list result_entry * list result_entry)%type.

Definition append_to (b : bucket) (e : result_entry) (acc : results) : results :=
  match b with
  | DifferentPoints => (fst acc ++ [e], snd acc)
  | SamePoints => (fst acc, snd acc ++ [e])
  end.

Section Engine.

(** What the model takes from the Python runtime and from [pytz]:
    the order in which a [set] of strings built from a list is iterated,
    and the conversion of a UTC time text to Eastern time text (lines
    62-79, [""] when the text does not parse). *)
Variable set_order : list string -> list string.
Variable convert_utc_to_et : string -> string.

(** ** Pairing of Over and Under (lines 208-224) *)

Definition find_side (outcomes : list outcome) (desc side : string) : option outcome :=
  find (fun o => (description o =? desc) && (lower (name o) =? side)) outcomes.

Definition with_projected_value (o : outcome) (v : Q) : outcome :=
  {| description := description o; name := name o; price := price o;
     point := point o; projected_value := Some v |}.

Fixpoint add_projected_loop (outcomes : list outcome) (descriptions : list string)
    (result_ : list outcome) : result (list outcome) :=
  match descriptions with
  | [] => Ok result_
  | desc :: rest =>
      match find_side outcomes desc "over", find_side outcomes desc "under" with
      | Some over, Some under =>
          match point over with
          | None => Raise KeyError
          | Some over_point =>
              v <- get_projected_value (price over) (price under) over_point ;;
              add_projected_loop outcomes rest
                (result_ ++ [with_projected_value over v; with_projected_value under v])
          end
      | _, _ => add_projected_loop outcomes rest result_
      end
  end.

Definition add_projected_values (outcomes : list outcome) : result (list outcome) :=
  result_ <- add_projected_loop outcomes (set_order (map description outcomes)) [] ;;
  Ok (if (List.length result_ =? 0)%nat then outcomes else result_).

(** ** The classifier (lines 265-442) *)

(** Lines 305-306: the reference outcome of the same player and label. *)
Definition find_pin_outcome (pinnacle_outcomes : list outcome) (outcome_ : outcome)
  : option outcome :=
  find (fun o => (description o =? description outcome_)
                 && (name o =? name outcome_)) pinnacle_outcomes.

(** Lines 305-432, the body of [for outcome in outcomes]: [Ok None] when
    nothing is appended, [Ok (Some (b, e))] when [e] is appended to the
    list [b]. *)
Definition classify_outcome (t : table) (event_name_ commence_time_ : string)
    (bookmaker_ : bookmaker) (market_ : market)
    (pinnacle_outcomes : list outcome) (outcome_ : outcome)
  : result (option (bucket * result_entry)) :=
  match find_pin_outcome pinnacle_outcomes outcome_ with
  | None => Ok None
  | Some pin_outcome =>
      match (pin_prob <- american_to_implied (price pin_outcome) ;;
             other_prob <- american_to_implied (price outcome_) ;;
             Ok (pin_prob, other_prob)) with
      | Raise ValueError => Ok None
      | Raise e => Raise e
      | Ok (pin_prob, other_prob) =>
          let prob_delta := (pin_prob - other_prob)%Q in
          let point_delta := calculate_point_delta outcome_ pin_outcome in
          let outcome_type_ := name outcome_ in
          let player_name_ := description outcome_ in
          let market_type_ := mk_key market_ in
          let projected_value_ := projected_value outcome_ in
          let pin_projected_value := projected_value pin_outcome in
          let pin_current_point := point pin_outcome in
          let pin_current_odds := price pin_outcome in
          let projected_val_delta :=
            match pin_projected_value, projected_value_ with
            | Some a, Some b => Some (a - b)%Q
            | _, _ => None
            end in
          moved <- compare_with_earliest t market_type_ outcome_type_ player_name_
                     pin_current_point pin_current_odds ;;
          let '(point_move, odds_pct_move, is_favorable) := moved in
          let result_entry_ :=
            {| e_commence_time := commence_time_;
               e_event_name := event_name_;
               e_source := bk_title bookmaker_;
               e_player := description outcome_;
               e_type := name outcome_;
               e_bet_type := transform_string (mk_key market_);
               e_odds := price outcome_;
               e_delta := prob_delta;
               e_is_favorable := is_favorable;
               e_point_move := point_move;
               e_projected_value := projected_value_;
               e_pinnacle_projected_val := pin_projected_value;
               e_projected_val_delta := projected_val_delta;
               e_odds_pct_move := odds_pct_move;
               e_abs_point_move := option_map Qabs point_move;
               e_abs_proj_delta := option_map Qabs projected_val_delta;
               e_point := point outcome_;
               e_pinnacle :=
                 (description pin_outcome, name pin_outcome,
                  match point outcome_ with
                  | Some _ => point pin_outcome
                  | None => None
                  end,
                  price pin_outcome);
               e_point_delta :=
                 match point_delta with
                 | Some d => d
                 | None => 0
                 end |} in
          b <- categorize outcome_ pin_outcome pin_prob prob_delta point_delta ;;
          Ok (option_map (fun b' => (b', result_entry_)) b)
      end
  end.

Definition outcome_body (t : table) (event_name_ commence_time_ : string)
    (bookmaker_ : bookmaker) (market_ : market) (pinnacle_outcomes : list outcome)
    (outcome_ : outcome) (acc : results) : results * option exn :=
  match classify_outcome t event_name_ commence_time_ bookmaker_ market_
          pinnacle_outcomes outcome_ with
  | Ok None => (acc, None)
  | Ok (Some (b, e)) => (append_to b e acc, None)
  | Raise e => (acc, Some e)
  end.

(** Lines 296-304, the body of [for market in bookmaker.get('markets', [])] *)
Definition market_body (t : table) (event_name_ commence_time_ : string)
    (pinnacle_data bookmaker_ : bookmaker) (market_ : market) (acc : results)
  : results * option exn :=
  match find (fun m => mk_key m =? mk_key market_) (bk_markets pinnacle_data) with
  | None => (acc, None)
  | Some pinnacle_market =>
      match add_projected_values (mk_outcomes market_) with
      | Raise e => (acc, Some e)
      | Ok outcomes =>
          match add_projected_values (mk_outcomes pinnacle_market) with
          | Raise e => (acc, Some e)
          | Ok pinnacle_outcomes =>
              for_each (outcome_body t event_name_ commence_time_ bookmaker_
                          market_ pinnacle_outcomes) outcomes acc
          end
      end
  end.

(** Lines 291-295, the body of [for bookmaker in bookmakers] *)
Definition bookmaker_body (t : table) (event_name_ commence_time_ : string)
    (pinnacle_data bookmaker_ : bookmaker) (acc : results) : results * option exn :=
  if bk_key bookmaker_ =? "pinnacle" then (acc, None)
  else for_each (market_body t event_name_ commence_time_ pinnacle_data bookmaker_)
         (bk_markets bookmaker_) acc.

(** The lists as they stand when the [try] block is left, before sorting,
    and the exception that ended it, if any. *)
Definition collect_results (t : table) (props_ : props)
    (event_name_ commence_time_ : string) (pinnacle_data : bookmaker)
  : results * option exn :=
  for_each (bookmaker_body t event_name_ commence_time_ pinnacle_data)
    (p_bookmakers props_) ([], []).

Definition find_favorable_lines (t : table) (props_ : props)
    (event_name_ commence_time_ : string) : option results :=
  match find (fun b => bk_key b =? "pinnacle") (p_bookmakers props_) with
  | None => None
  | Some pinnacle_data =>
      let acc := fst (collect_results t props_ event_name_ commence_time_ pinnacle_data) in
      Some (sort_desc (fst acc), sort_desc (snd acc))
  end.

(** ** Writing the baseline (lines 705-766) *)

Definition store_props (t : table) (props_ : props) : table :=
  let event_commence_time_ := convert_utc_to_et (p_commence_time props_) in
  let event_name_ := (p_away_team props_ ++ " @ " ++ p_home_team props_)%string in
  fold_left (fun t1 bookmaker_ =>
    if negb (bk_key bookmaker_ =? SELECTED_BOOK) then t1
    else
      fold_left (fun t2 m =>
        let updated_dttm_ := convert_utc_to_et (mk_last_update m) in
        fold_left (fun t3 o =>
          insert_or_replace t3
            {| event_id := p_id props_;
               event_name := event_name_;
               sport_key := p_sport_key props_;
               market_type := mk_key m;
               outcome_type := name o;
               player_name := description o;
               point_value := point o;
               odds := price o;
               event_commence_time := event_commence_time_;
               updated_dttm := updated_dttm_ |})
          (mk_outcomes m) t2)
        (bk_markets bookmaker_) t1)
    (p_bookmakers props_) t.

(** ** One turn of the loop of [main] (lines 787-799)

    [fetched] is what [fetch_props] returned, [None] for the empty answer. *)
Definition main_step (ev : event) (fetched : option props)
    (st : table * results) : table * results :=
  match fetched with
  | None => st
  | Some props_ =>
      let t' := store_props (fst st) props_ in
      let event_name_ := (ev_away_team ev ++ " @ " ++ ev_home_team ev)%string in
      let commence_time_ := drop_last4 (convert_utc_to_et (ev_commence_time ev)) in
      match find_favorable_lines t' props_ event_name_ commence_time_ with
      | None => (t', snd st)
      | Some r => (t', (fst (snd st) ++ fst r, snd (snd st) ++ snd r))
      end
  end.

End Engine.

(** ** Time texts (lines 42-60 and 62-79)

    The column [event_commence_time] holds what [convert_utc_to_et]
    returns, [strftime("%Y-%m-%d %H:%M:%S %Z")] of an Eastern wall-clock
    time; the parameter of the DELETE is an aware [datetime], which the
    [sqlite3] module hands to SQLite as [isoformat(" ")].  Both texts
    are modelled from the wall-clock fields, for years of four digits. *)

Record wall_clock : Set := {
  year : N;
  month : N;
  day : N;
  hour : N;
  minute : N;
  second : N
}.

(** [datetime.now(pytz.timezone('US/Eastern'))] *)
Record aware_datetime : Set := {
  wall : wall_clock;
  microsecond : N;
  utcoffset_minutes : Z
}.

Definition digit (n : N) : ascii := ascii_of_N (48 + n).

Definition two_digits (n : N) : string :=
  String (digit (n / 10)) (String (digit (n mod 10)) EmptyString).

Definition four_digits (n : N) : string :=
  (two_digits (n / 100) ++ two_digits (n mod 100))%string.

Definition six_digits (n : N) : string :=
  (two_digits (n / 10000) ++ two_digits ((n / 100) mod 100)
   ++ two_digits (n mod 100))%string.

(** ["%Y-%m-%d %H:%M:%S"] *)
Definition strftime_seconds (w : wall_clock) : string :=
  (four_digits (year w) ++ "-" ++ two_digits (month w) ++ "-" ++ two_digits (day w)
   ++ " " ++ two_digits (hour w) ++ ":" ++ two_digits (minute w) ++ ":"
   ++ two_digits (second w))%string.

(** The text [convert_utc_to_et] returns for the Eastern time [w] in the
    zone named [zone] (["EST"], ["EDT"]). *)
Definition et_text (w : wall_clock) (zone : string) : string :=
  (strftime_seconds w ++ " " ++ zone)%string.

Definition utcoffset_text (m : Z) : string :=
  ((if (m <? 0)%Z then "-" else "+")
   ++ two_digits (Z.to_N (Z.abs m / 60)) ++ ":"
   ++ two_digits (Z.to_N (Z.abs m mod 60)))%string.

(** [d.isoformat(" ")] *)
Definition isoformat_space (d : aware_datetime) : string :=
  (strftime_seconds (wall d)
   ++ (if (microsecond d =? 0)%N then "" else "." ++ six_digits (microsecond d))
   ++ utcoffset_text (utcoffset_minutes d))%string.

(** lines 42-60 *)
Definition remove_commenced_games (t : table) (current_time : aware_datetime) : table :=
  delete_commenced t (isoformat_space current_time).

(** Order of wall-clock times, field by field. *)
Definition lex (c1 c2 : comparison) : comparison :=
  match c1 with
  | Eq => c2
  | _ => c1
  end.

Definition wall_compare (a b : wall_clock) : comparison :=
  lex (N.compare (year a) (year b))
 (lex (N.compare (month a) (month b))
 (lex (N.compare (day a) (day b))
 (lex (N.compare (hour a) (hour b))
 (lex (N.compare (minute a) (minute b))
      (N.compare (second a) (second b)))))).

Definition valid_wall (w : wall_clock) : Prop :=
  (1000 <= year w <= 9999 /\ month w < 100 /\ day w < 100 /\ hour w < 100
   /\ minute w < 100 /\ second w < 100)%N.


(** ** Predicates of the statements *)


(** The order of the ranking, in the spec's words.
    [ranks_before a b]: [a] may stand before [b] in a list sorted
    descending by the pair (point delta, probability delta). *)
Definition ranks_before (a b : result_entry) : Prop :=
  e_point_delta b < e_point_delta a
  \/ (e_point_delta a == e_point_delta b /\ e_delta b <= e_delta a).

(** What the model assumes of the iteration order of a set: the distinct
    elements of the list, in some order. *)
Definition set_order_ok (set_order : list string -> list string) : Prop :=
  forall l, Permutation (nodup string_dec l) (set_order l).

(** Iteration in the order of first occurrence, one admissible order. *)
Definition first_occurrence_order (l : list string) : list string :=
  nodup string_dec l.

(** Equality test on [comparison], and the numbers of two digits. *)
Definition comparison_eqb (c1 c2 : comparison) : bool :=
  match c1, c2 with
  | Eq, Eq | Lt, Lt | Gt, Gt => true
  | _, _ => false
  end.

Definition below_100 : list N := map N.of_nat (seq 0 100).

(** ** Sample data *)

(** A baseline [(5.5, -120)] for the Over of a player. *)
Definition baseline_over_example : table :=
  [ {| event_id := "e1"; event_name := "NYJ @ BUF"; sport_key := "americanfootball_nfl";
       market_type := "player_receptions"; outcome_type := "Over";
       player_name := "Player A"; point_value := Some (11 # 2); odds := (-120)%Z;
       event_commence_time := "2024-01-07 13:00:00 EST";
       updated_dttm := "2024-01-05 09:00:00 EST" |} ].

(** A book quoting Over 4.5 at -105 against the reference Over 5.5 at -125. *)
Definition over_45 : outcome :=
  {| description := "Player A"; name := "Over"; price := (-105)%Z;
     point := Some (9 # 2); projected_value := None |}.

Definition pin_over_55 : outcome :=
  {| description := "Player A"; name := "Over"; price := (-125)%Z;
     point := Some (11 # 2); projected_value := None |}.

Definition receptions_market (l : list outcome) : market :=
  {| mk_key := "player_receptions"; mk_last_update := "2024-01-05T14:00:00Z";
     mk_outcomes := l |}.

Definition book (key title : string) (l : list market) : bookmaker :=
  {| bk_key := key; bk_title := title; bk_markets := l |}.

(** A same-points entry with the given point delta and probability delta. *)
Definition entry_with (point_delta_ delta_ : Q) : result_entry :=
  {| e_commence_time := "2024-01-07 13:00:00"; e_event_name := "NYJ @ BUF";
     e_source := "FanDuel"; e_player := "Player A"; e_type := "Yes";
     e_bet_type := "Anytime Td"; e_odds := 150%Z; e_delta := delta_;
     e_is_favorable := None; e_point_move := None; e_projected_value := None;
     e_pinnacle_projected_val := None; e_projected_val_delta := None;
     e_odds_pct_move := None; e_abs_point_move := None; e_abs_proj_delta := None;
     e_point := None; e_pinnacle := ("Player A", "Yes", None, 110%Z);
     e_point_delta := point_delta_ |}.

(** The reference book's payload of one event at two scans: Over 5.5 at
    -120 first, Over 6.5 at -110 later. *)
Definition pin_over (pt : Q) (pr : Z) : outcome :=
  {| description := "Player A"; name := "Over"; price := pr;
     point := Some pt; projected_value := None |}.

Definition receptions_market_at (last_update_ : string) (l : list outcome) : market :=
  {| mk_key := "player_receptions"; mk_last_update := last_update_;
     mk_outcomes := l |}.

Definition scan_of (id_ : string) (books : list bookmaker) : props :=
  {| p_id := id_; p_sport_key := "americanfootball_nfl";
     p_commence_time := "2024-01-07T18:00:00Z";
     p_home_team := "BUF"; p_away_team := "NYJ";
     p_bookmakers := books |}.

Definition first_scan : props :=
  scan_of "e1"
    [book "pinnacle" "Pinnacle"
       [receptions_market_at "2024-01-05T14:00:00Z" [pin_over (11 # 2) (-120)]]].

Definition second_scan : props :=
  scan_of "e1"
    [book "pinnacle" "Pinnacle"
       [receptions_market_at "2024-01-06T14:00:00Z" [pin_over (13 # 2) (-110)]]].

Definition the_event : event :=
  {| ev_id := "e1"; ev_sport_key := "americanfootball_nfl";
     ev_commence_time := "2024-01-07T18:00:00Z";
     ev_home_team := "BUF"; ev_away_team := "NYJ" |}.

(** The same player's Over in another event, observed three days later. *)
Definition other_event_row : row :=
  {| event_id := "e2"; event_name := "BUF @ MIA"; sport_key := "americanfootball_nfl";
     market_type := "player_receptions"; outcome_type := "Over";
     player_name := "Player A"; point_value := Some (13 # 2); odds := (-110)%Z;
     event_commence_time := "2024-01-14 13:00:00 EST";
     updated_dttm := "2024-01-08 09:00:00 EST" |}.

(** A scan in which one book quotes the Over of a pair at price zero,
    followed by a market with a generous Yes. *)
Definition under_at (pt : Q) (pr : Z) : outcome :=
  {| description := "Player A"; name := "Under"; price := pr;
     point := Some pt; projected_value := None |}.

Definition yes_at (player_ : string) (pr : Z) : outcome :=
  {| description := player_; name := "Yes"; price := pr;
     point := None; projected_value := None |}.

Definition td_market (l : list outcome) : market :=
  {| mk_key := "player_anytime_td"; mk_last_update := "2024-01-05T14:00:00Z";
     mk_outcomes := l |}.

Definition pinnacle_book : bookmaker :=
  book "pinnacle" "Pinnacle"
    [receptions_market [pin_over (11 # 2) (-125); under_at (11 # 2) 105];
     td_market [yes_at "Player B" 110; yes_at "Player C" 120]].

Definition zero_price_scan : props :=
  scan_of "e1"
    [pinnacle_book;
     book "fanduel" "FanDuel"
       [receptions_market [pin_over (11 # 2) 0; under_at (11 # 2) (-120)];
        td_market [yes_at "Player B" 150]]].

(** The same scan without the outcome priced at zero. *)
Definition zero_price_removed_scan : props :=
  scan_of "e1"
    [pinnacle_book;
     book "fanduel" "FanDuel"
       [receptions_market [under_at (11 # 2) (-120)];
        td_market [yes_at "Player B" 150]]].

(** A scan of binary outcomes, and a baseline row whose price is zero. *)
Definition yes_scan : props :=
  scan_of "e1"
    [pinnacle_book;
     book "fanduel" "FanDuel"
       [td_market [yes_at "Player B" 150; yes_at "Player C" 160]]].

Definition zero_baseline : table :=
  [ {| event_id := "e0"; event_name := "BUF @ NE"; sport_key := "americanfootball_nfl";
       market_type := "player_anytime_td"; outcome_type := "Yes";
       player_name := "Player B"; point_value := None; odds := 0%Z;
       event_commence_time := "2024-01-07 13:00:00 EST";
       updated_dttm := "2024-01-04 09:00:00 EST" |} ].

(** January 7, 2024 on the Eastern wall clock, at the given time. *)
Definition jan7 (h mi s : N) : wall_clock :=
  {| year := 2024; month := 1; day := 7; hour := h; minute := mi; second := s |}.

Definition game_row (id_ : string) (w : wall_clock) : row :=
  {| event_id := id_; event_name := "NYJ @ BUF"; sport_key := "americanfootball_nfl";
     market_type := "player_receptions"; outcome_type := "Over";
     player_name := "Player A"; point_value := Some (11 # 2); odds := (-120)%Z;
     event_commence_time := et_text w "EST";
     updated_dttm := "2024-01-05 09:00:00 EST" |}.

(** 13:00:00.250000-05:00 and 13:00:00-05:00 *)
Definition now_quarter_past : aware_datetime :=
  {| wall := jan7 13 0 0; microsecond := 250000; utcoffset_minutes := (-300)%Z |}.

Definition now_on_the_second : aware_datetime :=
  {| wall := jan7 13 0 0; microsecond := 0; utcoffset_minutes := (-300)%Z |}.

(** [c in s] *)
Fixpoint has_char (c : ascii) (s : string) : bool :=
  match s with
  | EmptyString => false
  | String d s' => (d =? c)%char || has_char c s'
  end.

(** [o] is the Over or the Under of a pair of [outcomes] for one player,
    carrying the projected value of that pair. *)
Definition from_pair (outcomes : list outcome) (o : outcome) : Prop :=
  exists over under pt v,
    In over outcomes /\ In under outcomes
    /\ lower (name over) = "over" /\ lower (name under) = "under"
    /\ description over = description under
    /\ point over = Some pt
    /\ get_projected_value (price over) (price under) pt = Ok v
    /\ (o = with_projected_value over v \/ o = with_projected_value under v).

(** A scan with one different-points line: Over 4.5 at -105 against the
    reference Over 5.5 at -125. *)
Definition different_points_scan : props :=
  scan_of "e1"
    [book "pinnacle" "Pinnacle" [receptions_market [pin_over_55]];
     book "fanduel" "FanDuel" [receptions_market [over_45]]].

(** Two entries have the same sort key. *)
Definition key_eqb (a b : result_entry) : bool :=
  negb (key_ltb (sort_key a) (sort_key b)) && negb (key_ltb (sort_key b) (sort_key a)).

(** The primary key of a row. *)
Definition key_of (r : row) : string * string * string * string :=
  (event_id r, market_type r, outcome_type r, player_name r).

(** The row [store_props] writes for the outcome [o] of the market [m]
    (lines 747-760), and the rows it writes for a payload, in order. *)
Definition row_of (convert_utc_to_et : string -> string) (props_ : props)
    (m : market) (o : outcome) : row :=
  {| event_id := p_id props_;
     event_name := (p_away_team props_ ++ " @ " ++ p_home_team props_)%string;
     sport_key := p_sport_key props_;
     market_type := mk_key m;
     outcome_type := name o;
     player_name := description o;
     point_value := point o;
     odds := price o;
     event_commence_time := convert_utc_to_et (p_commence_time props_);
     updated_dttm := convert_utc_to_et (mk_last_update m) |}.

Definition rows_of (convert_utc_to_et : string -> string) (props_ : props) : list row :=
  flat_map (fun b =>
    if negb (bk_key b =? SELECTED_BOOK) then []
    else flat_map (fun m => map (row_of convert_utc_to_et props_ m) (mk_outcomes m))
           (bk_markets b))
    (p_bookmakers props_).

(** A wall-clock time of valid fields as one number. *)
Definition wall_number (w : wall_clock) : N :=
  (((((year w * 100 + month w) * 100 + day w) * 100 + hour w) * 100
    + minute w) * 100 + second w)%N.

(** The lists [acc'] are the lists [acc] with entries appended. *)
Definition extends (acc acc' : results) : Prop :=
  exists d s, acc' = (fst acc ++ d, snd acc ++ s).

(** A book whose Over is priced at zero, and a scan that ends at it. *)
Definition zero_over_book : bookmaker :=
  book "fanduel" "FanDuel"
    [receptions_market [pin_over (11 # 2) 0; under_at (11 # 2) (-120)]].

Definition yes_book : bookmaker :=
  book "betmgm" "BetMGM" [td_market [yes_at "Player B" 150]].


(** * Properties *)

(** ** Probability model *)

Lemma inject_Z_pos (z : Z) : (0 < z)%Z -> 0 < inject_Z z.
Proof. intros H. unfold Qlt, inject_Z. simpl. lia. Qed.

Lemma implied_positive_odds (odds : Z) :
  (0 < odds)%Z -> american_to_implied odds = Ok (100 / inject_Z (odds + 100)).
Proof.
  intros H. unfold american_to_implied.
  destruct (Z.eqb_spec odds 0) as [E | _]; [lia |].
  destruct (Z.ltb_spec 0 odds) as [_ | E]; [reflexivity | lia].
Qed.

Lemma implied_negative_odds (odds : Z) :
  (odds < 0)%Z ->
  american_to_implied odds
  = Ok (inject_Z (Z.abs odds) / inject_Z (Z.abs odds + 100)).
Proof.
  intros H. unfold american_to_implied.
  destruct (Z.eqb_spec odds 0) as [E | _]; [lia |].
  destruct (Z.ltb_spec 0 odds) as [E | _]; [lia | reflexivity].
Qed.

Lemma implied_zero_odds : american_to_implied 0 = Raise ValueError.
Proof. reflexivity. Qed.

Lemma ratio_in_unit_interval (a b : Z) :
  (0 < a)%Z -> (a < b)%Z -> 0 < inject_Z a / inject_Z b /\ inject_Z a / inject_Z b < 1.
Proof.
  intros Ha Hb.
  assert (Hb0 : 0 < inject_Z b) by (apply inject_Z_pos; lia).
  split.
  - apply Qlt_shift_div_l; [exact Hb0 |].
    rewrite Qmult_0_l. apply inject_Z_pos. exact Ha.
  - apply Qlt_shift_div_r; [exact Hb0 |].
    rewrite Qmult_1_l. rewrite <- Zlt_Qlt. exact Hb.
Qed.

(** Every nonzero price has an implied probability, strictly between 0 and 1. *)
Lemma implied_in_unit_interval (odds : Z) :
  odds <> 0%Z -> exists p, american_to_implied odds = Ok p /\ 0 < p /\ p < 1.
Proof.
  intros H.
  destruct (Z.lt_trichotomy odds 0) as [Hneg | [H0 | Hpos]]; [| contradiction |].
  - eexists; split; [apply implied_negative_odds; exact Hneg |].
    apply ratio_in_unit_interval; lia.
  - eexists; split; [apply implied_positive_odds; exact Hpos |].
    apply (ratio_in_unit_interval 100 (odds + 100)); lia.
Qed.

(** The function raises only at price zero. *)
Lemma implied_raises_iff (odds : Z) :
  (exists e, american_to_implied odds = Raise e) <-> odds = 0%Z.
Proof.
  split.
  - intros [e He]. destruct (Z.eq_dec odds 0) as [E | E]; [exact E |].
    destruct (implied_in_unit_interval odds E) as [p [Hp _]]. congruence.
  - intros ->. exists ValueError. reflexivity.
Qed.






(** ** Boolean tests against their propositions *)

Lemma Qlt_bool_iff (x y : Q) : Qlt_bool x y = true <-> x < y.
Proof.
  unfold Qlt_bool. rewrite negb_true_iff. split.
  - intros H. apply Qnot_le_lt. intros L. apply Qle_bool_iff in L. congruence.
  - intros H. destruct (Qle_bool y x) eqn:E; [| reflexivity].
    apply Qle_bool_iff in E. exfalso. exact (Qlt_not_le _ _ H E).
Qed.

Lemma Qlt_bool_false_iff (x y : Q) : Qlt_bool x y = false <-> ~ x < y.
Proof.
  rewrite <- Qlt_bool_iff. destruct (Qlt_bool x y); split; congruence.
Qed.

Lemma Qeq_bool_false_iff (x y : Q) : Qeq_bool x y = false <-> ~ x == y.
Proof.
  rewrite <- Qeq_bool_iff. destruct (Qeq_bool x y); split; congruence.
Qed.

Lemma Qle_bool_false_iff (x y : Q) : Qle_bool x y = false <-> ~ x <= y.
Proof.
  rewrite <- Qle_bool_iff. destruct (Qle_bool x y); split; congruence.
Qed.

(** Moves every boolean test of the context into [Prop]. *)
Ltac to_prop :=
  repeat match goal with
  | H : Qlt_bool _ _ = true |- _ => apply Qlt_bool_iff in H
  | H : Qlt_bool _ _ = false |- _ => apply Qlt_bool_false_iff in H
  | H : Qeq_bool _ _ = true |- _ => apply Qeq_bool_iff in H
  | H : Qeq_bool _ _ = false |- _ => apply Qeq_bool_false_iff in H
  | H : Qle_bool _ _ = true |- _ => apply Qle_bool_iff in H
  | H : Qle_bool _ _ = false |- _ => apply Qle_bool_false_iff in H
  | H : (_ <? _)%Z = true |- _ => apply Z.ltb_lt in H
  | H : (_ <? _)%Z = false |- _ => apply Z.ltb_ge in H
  | H : (_ <=? _)%Z = true |- _ => apply Z.leb_le in H
  | H : (_ <=? _)%Z = false |- _ => apply Z.leb_gt in H
  | H : (_ =? _)%string = true |- _ => apply String.eqb_eq in H
  | H : (_ =? _)%string = false |- _ => apply String.eqb_neq in H
  end.

(** ** Favorability flag *)

Lemma favorable_flag_over (rp e : Q) (o eo : Z) :
  let fl := favorable_flag "Over" (Some rp) o (Some e) eo in
  (fl = Some flag_Y <-> (e < rp \/ (rp == e /\ (o < eo)%Z)))
  /\ (fl = Some flag_N <-> ~ (e < rp \/ (rp == e /\ (o < eo)%Z))).
Proof.
  cbn. destruct (Qlt_bool e rp) eqn:E1;
    [| destruct (Qeq_bool rp e) eqn:E2; [destruct (o <? eo)%Z eqn:E3 |]];
    cbn; to_prop; (split; split; intros K; try discriminate; try tauto; try lia).
  all: try (exfalso; apply K; tauto).
  all: try (intros [K1 | [K1 K2]]; try tauto; lia).
  all: destruct K as [K1 | [K1 K2]]; [tauto | lia].
Qed.

Lemma favorable_flag_under (rp e : Q) (o eo : Z) :
  let fl := favorable_flag "Under" (Some rp) o (Some e) eo in
  (fl = Some flag_Y <-> (rp < e \/ (rp == e /\ (o < eo)%Z)))
  /\ (fl = Some flag_N <-> ~ (rp < e \/ (rp == e /\ (o < eo)%Z))).
Proof.
  cbn. destruct (Qlt_bool rp e) eqn:E1;
    [| destruct (Qeq_bool rp e) eqn:E2; [destruct (o <? eo)%Z eqn:E3 |]];
    cbn; to_prop; (split; split; intros K; try discriminate; try tauto; try lia).
  all: try (exfalso; apply K; tauto).
  all: try (intros [K1 | [K1 K2]]; try tauto; lia).
  all: destruct K as [K1 | [K1 K2]]; [tauto | lia].
Qed.

Lemma favorable_flag_yes (pin_pt ep : option Q) (o eo : Z) :
  let fl := favorable_flag "Yes" pin_pt o ep eo in
  (fl = Some flag_Y <-> (o < eo)%Z) /\ (fl = Some flag_N <-> ~ (o < eo)%Z).
Proof.
  cbn. destruct (o <? eo)%Z eqn:E; to_prop;
    (split; split; intros K; try discriminate; try reflexivity; try lia).
Qed.

Lemma favorable_flag_other (ot : string) (pin_pt ep : option Q) (o eo : Z) :
  ot <> "Over" -> ot <> "Under" -> ot <> "Yes" ->
  favorable_flag ot pin_pt o ep eo = None.
Proof.
  intros H1 H2 H3. unfold favorable_flag.
  apply String.eqb_neq in H1, H2, H3. rewrite H1, H2, H3. reflexivity.
Qed.

Lemma favorable_flag_missing_point (ot : string) (pin_pt ep : option Q) (o eo : Z) :
  ot = "Over" \/ ot = "Under" -> pin_pt = None \/ ep = None ->
  favorable_flag ot pin_pt o ep eo = None.
Proof.
  intros [-> | ->] [-> | ->]; cbn; try reflexivity; destruct pin_pt; reflexivity.
Qed.

Lemma compare_with_earliest_other (t : table) (mt ot pl : string)
    (pin_pt : option Q) (pin_odds : Z) :
  ot <> "Over" -> ot <> "Under" -> ot <> "Yes" ->
  compare_with_earliest t mt ot pl pin_pt pin_odds = Ok (None, None, None).
Proof.
  intros H1 H2 H3. unfold compare_with_earliest, in_list. cbn [existsb].
  apply String.eqb_neq in H1, H2, H3. rewrite H1, H2, H3. reflexivity.
Qed.

Lemma compare_with_earliest_found (t : table) (mt ot pl : string)
    (pin_pt : option Q) (pin_odds : Z) (ep : option Q) (eo : Z) :
  pin_odds <> 0%Z -> eo <> 0%Z ->
  select_earliest t mt ot pl = Some (ep, eo) ->
  exists pm om,
    compare_with_earliest t mt ot pl pin_pt pin_odds
    = Ok (pm, om,
          if in_list ot ["Over"; "Under"; "Yes"]
          then favorable_flag ot pin_pt pin_odds ep eo else None).
Proof.
  intros Hp He Hsel. unfold compare_with_earliest.
  destruct (in_list ot ["Over"; "Under"; "Yes"]); [| eauto].
  rewrite Hsel.
  destruct (implied_in_unit_interval _ Hp) as [a [Ha _]].
  destruct (implied_in_unit_interval _ He) as [b [Hb _]].
  rewrite Ha, Hb. cbn [bind]. eauto.
Qed.

(** C3: with valid (nonzero) prices the flag is ['Y'] or ['N'] only for
    the labels Over, Under and Yes, by the comparisons of the reference
    point and price with the baseline's; it is [None] for every other
    label, without a baseline, and when a point needed by Over or Under
    is missing. *)
Theorem favorability_flag_spec (t : table) (mt ot pl : string)
    (pin_pt : option Q) (pin_odds : Z) :
  pin_odds <> 0%Z ->
  (select_earliest t mt ot pl = None ->
   compare_with_earliest t mt ot pl pin_pt pin_odds = Ok (None, None, None))
  /\ (forall (ep : option Q) (eo : Z),
        select_earliest t mt ot pl = Some (ep, eo) -> eo <> 0%Z ->
        exists pm om fl,
          compare_with_earliest t mt ot pl pin_pt pin_odds = Ok (pm, om, fl)
          /\ (ot = "Over" ->
              forall rp e, pin_pt = Some rp -> ep = Some e ->
                (fl = Some flag_Y <-> (e < rp \/ (rp == e /\ (pin_odds < eo)%Z)))
                /\ (fl = Some flag_N <-> ~ (e < rp \/ (rp == e /\ (pin_odds < eo)%Z))))
          /\ (ot = "Under" ->
              forall rp e, pin_pt = Some rp -> ep = Some e ->
                (fl = Some flag_Y <-> (rp < e \/ (rp == e /\ (pin_odds < eo)%Z)))
                /\ (fl = Some flag_N <-> ~ (rp < e \/ (rp == e /\ (pin_odds < eo)%Z))))
          /\ (ot = "Yes" ->
              (fl = Some flag_Y <-> (pin_odds < eo)%Z)
              /\ (fl = Some flag_N <-> ~ (pin_odds < eo)%Z))
          /\ (ot = "Over" \/ ot = "Under" -> pin_pt = None \/ ep = None -> fl = None)
          /\ (ot <> "Over" -> ot <> "Under" -> ot <> "Yes" -> fl = None)).
Proof.
  intros Hp. split.
  - intros Hnone. unfold compare_with_earliest. rewrite Hnone.
    destruct (in_list ot ["Over"; "Under"; "Yes"]); reflexivity.
  - intros ep eo Hsel He.
    destruct (compare_with_earliest_found t mt ot pl pin_pt pin_odds ep eo Hp He Hsel)
      as [pm [om Hc]].
    exists pm, om. eexists. split; [exact Hc |].
    split; [| split; [| split; [| split]]].
    + intros -> rp e -> ->. apply favorable_flag_over.
    + intros -> rp e -> ->. apply favorable_flag_under.
    + intros ->. apply favorable_flag_yes.
    + intros Hot Hmiss.
      assert (Hin : in_list ot ["Over"; "Under"; "Yes"] = true)
        by (destruct Hot as [-> | ->]; reflexivity).
      rewrite Hin. apply favorable_flag_missing_point; assumption.
    + intros H1 H2 H3.
      destruct (in_list ot ["Over"; "Under"; "Yes"]); [| reflexivity].
      apply favorable_flag_other; assumption.
Qed.

(** The theorem on that baseline: a reference line moved to [(6.5, -110)]
    is flagged ['Y'], and one at [(5.5, -110)] is flagged ['N']. *)
Lemma favorability_flag_spec_witness :
  (exists pm om,
     compare_with_earliest baseline_over_example "player_receptions" "Over" "Player A"
       (Some (13 # 2)) (-110) = Ok (pm, om, Some flag_Y))
  /\ (exists pm om,
     compare_with_earliest baseline_over_example "player_receptions" "Over" "Player A"
       (Some (11 # 2)) (-110) = Ok (pm, om, Some flag_N)).
Proof.
  split.
  - destruct (favorability_flag_spec baseline_over_example "player_receptions" "Over"
                "Player A" (Some (13 # 2)) (-110)%Z ltac:(discriminate))
      as [_ H].
    destruct (H (Some (11 # 2)) (-120)%Z eq_refl ltac:(discriminate))
      as [pm [om [fl [Hc [Hover _]]]]].
    exists pm, om. rewrite Hc.
    destruct (Hover eq_refl (13 # 2) (11 # 2) eq_refl eq_refl) as [[_ HY] _].
    rewrite HY; [reflexivity |]. left. reflexivity.
  - destruct (favorability_flag_spec baseline_over_example "player_receptions" "Over"
                "Player A" (Some (11 # 2)) (-110)%Z ltac:(discriminate))
      as [_ H].
    destruct (H (Some (11 # 2)) (-120)%Z eq_refl ltac:(discriminate))
      as [pm [om [fl [Hc [Hover _]]]]].
    exists pm, om. rewrite Hc.
    destruct (Hover eq_refl (11 # 2) (11 # 2) eq_refl eq_refl) as [_ [_ HN]].
    rewrite HN; [reflexivity |].
    intros [K | [_ K]]; [| lia]. revert K. apply Qlt_irrefl.
Defined.

(** ** Bucket assignment *)


(** The direction test of lines 427-428. *)
Lemma direction_test (ot : string) (cp rp : Q) :
  ((ot =? "Over") && Qlt_bool cp rp || (ot =? "Under") && Qlt_bool rp cp) = true
  <-> ((ot = "Over" /\ cp < rp) \/ (ot = "Under" /\ rp < cp)).
Proof.
  rewrite orb_true_iff, !andb_true_iff, !String.eqb_eq, !Qlt_bool_iff. tauto.
Qed.


Lemma implied_ok_nonzero (odds : Z) (p : Q) :
  american_to_implied odds = Ok p -> odds <> 0%Z.
Proof. intros H ->. discriminate. Qed.




(** ** The probability delta and the unreachable thresholds *)

Lemma prob_delta_bounds (a b : Z) (p q : Q) :
  american_to_implied a = Ok p -> american_to_implied b = Ok q ->
  -(1) < p - q /\ p - q < 1.
Proof.
  intros Ha Hb.
  destruct (implied_in_unit_interval a (implied_ok_nonzero _ _ Ha)) as [p' [Hp [P0 P1]]].
  destruct (implied_in_unit_interval b (implied_ok_nonzero _ _ Hb)) as [q' [Hq [Q0 Q1]]].
  assert (p' = p) by congruence. assert (q' = q) by congruence. subst p' q'.
  split; lra.
Qed.

(** An invariant of the loop state is kept by [for_each]. *)
Lemma for_each_invariant {A S : Type} (I : S -> Prop)
    (body : A -> S -> S * option exn) (l : list A) :
  (forall x s, I s -> I (fst (body x s))) ->
  forall s, I s -> I (fst (for_each body l s)).
Proof.
  intros Hbody. induction l as [| x l IH]; intros s Hs; cbn.
  - exact Hs.
  - specialize (Hbody x s Hs). destruct (body x s) as [s' [e |]]; cbn in *.
    + exact Hbody.
    + apply IH. exact Hbody.
Qed.


(** ** Ranking *)

Lemma key_ltb_false (x y : result_entry) :
  key_ltb (sort_key x) (sort_key y) = false -> ranks_before x y.
Proof.
  unfold key_ltb, sort_key, ranks_before. cbn [fst snd]. intros H.
  apply orb_false_iff in H. destruct H as [H1 H2]. to_prop.
  destruct (Qeq_bool (e_point_delta x) (e_point_delta y)) eqn:E; to_prop.
  - right. split; [exact E |]. cbn in H2. to_prop. lra.
  - left. destruct (Q_dec (e_point_delta x) (e_point_delta y)) as [[K | K] | K].
    + contradiction.
    + exact K.
    + contradiction.
Qed.

Lemma key_ltb_true (x y : result_entry) :
  key_ltb (sort_key x) (sort_key y) = true -> ranks_before y x.
Proof.
  unfold key_ltb, sort_key, ranks_before. cbn [fst snd]. intros H.
  apply orb_true_iff in H. destruct H as [H | H]; to_prop.
  - left. exact H.
  - apply andb_true_iff in H. destruct H as [H1 H2]. to_prop.
    right. split; [symmetry; exact H1 | lra].
Qed.

Lemma ranks_before_trans (a b c : result_entry) :
  ranks_before a b -> ranks_before b c -> ranks_before a c.
Proof.
  unfold ranks_before. intros [H1 | [H1 H1']] [H2 | [H2 H2']].
  - left. lra.
  - left. lra.
  - left. lra.
  - right. split; lra.
Qed.

Lemma insert_desc_perm (x : result_entry) (l : list result_entry) :
  Permutation (x :: l) (insert_desc x l).
Proof.
  induction l as [| y l IH]; cbn.
  - apply Permutation_refl.
  - destruct (key_ltb (sort_key x) (sort_key y)).
    + apply perm_trans with (y :: x :: l); [apply perm_swap |].
      apply perm_skip. exact IH.
    + apply Permutation_refl.
Qed.

Lemma sort_desc_perm (l : list result_entry) : Permutation l (sort_desc l).
Proof.
  induction l as [| x l IH]; cbn.
  - apply perm_nil.
  - apply perm_trans with (x :: sort_desc l).
    + apply perm_skip. exact IH.
    + apply insert_desc_perm.
Qed.

Lemma insert_desc_sorted (x : result_entry) (l : list result_entry) :
  Sorted ranks_before l -> Sorted ranks_before (insert_desc x l).
Proof.
  induction l as [| y l IH]; intros Hs; cbn.
  - repeat constructor.
  - destruct (key_ltb (sort_key x) (sort_key y)) eqn:E.
    + inversion Hs as [| ? ? Hs' Hhd]; subst.
      constructor; [apply IH; exact Hs' |].
      destruct l as [| z l]; cbn.
      * constructor. apply key_ltb_true. exact E.
      * destruct (key_ltb (sort_key x) (sort_key z)).
        -- inversion Hhd; subst. constructor. assumption.
        -- constructor. apply key_ltb_true. exact E.
    + constructor; [exact Hs |]. constructor. apply key_ltb_false. exact E.
Qed.

Lemma sort_desc_sorted (l : list result_entry) :
  StronglySorted ranks_before (sort_desc l).
Proof.
  apply Sorted_StronglySorted.
  - intros a b c. apply ranks_before_trans.
  - induction l as [| x l IH]; cbn.
    + constructor.
    + apply insert_desc_sorted. exact IH.
Qed.



(** ** Only outcomes without a point reach the same-points list *)






(** ** Baseline store *)

(** The table after a turn of [main] is the one [store_props] wrote. *)
Lemma main_step_table (set_order : list string -> list string)
    (convert_utc_to_et : string -> string) (ev : event) (props_ : props)
    (st : table * results) :
  fst (main_step set_order convert_utc_to_et ev (Some props_) st)
  = store_props convert_utc_to_et (fst st) props_.
Proof.
  unfold main_step. destruct (find_favorable_lines _ _ _ _ _); reflexivity.
Qed.

(** A write leaves exactly one row under its key: the row written. *)
Lemma insert_or_replace_key (t : table) (r x : row) :
  In x (insert_or_replace t r) -> same_key x r = true -> x = r.
Proof.
  unfold insert_or_replace. intros Hin Hk.
  apply in_app_or in Hin. destruct Hin as [Hin | [<- | []]]; [| reflexivity].
  apply filter_In in Hin. destruct Hin as [_ Hn]. rewrite Hk in Hn. discriminate.
Qed.


(** C1 on the code: two scans of one event, the reference line Over 5.5
    at -120 at the first and Over 6.5 at -110 at the second.  After the
    first turn of [main] the earliest query returns (5.5, -120); after
    the second it returns (6.5, -110), the table still holding one row
    for the key: the first-seen pair is gone, and the flag computed from
    the table of the second turn is ['N'] where the first-seen baseline
    gives ['Y']. *)
Theorem baseline_overwritten_by_second_scan
    (set_order : list string -> list string) (convert_utc_to_et : string -> string) :
  let st1 := main_step set_order convert_utc_to_et the_event (Some first_scan)
               ([], ([], [])) in
  let st2 := main_step set_order convert_utc_to_et the_event (Some second_scan) st1 in
  select_earliest (fst st1) "player_receptions" "Over" "Player A"
    = Some (Some (11 # 2), (-120)%Z)
  /\ select_earliest (fst st2) "player_receptions" "Over" "Player A"
    = Some (Some (13 # 2), (-110)%Z)
  /\ List.length (fst st2) = 1%nat
  /\ (exists pm om,
        compare_with_earliest (fst st1) "player_receptions" "Over" "Player A"
          (Some (13 # 2)) (-110) = Ok (pm, om, Some flag_Y))
  /\ (exists pm om,
        compare_with_earliest (fst st2) "player_receptions" "Over" "Player A"
          (Some (13 # 2)) (-110) = Ok (pm, om, Some flag_N)).
Proof.
  intros st1 st2. subst st2 st1. rewrite !main_step_table. cbn [fst].
  split; [reflexivity |]. split; [reflexivity |]. split; [reflexivity |].
  split; eexists; eexists; reflexivity.
Qed.

(** C2 on the code: the table holds the Over of a player for the event
    [e1], (5.5, -120), updated on January 5; the observation (6.5, -110)
    of the same market, label and player for the event [e2], updated on
    January 8, is written; the earliest query, which does not read the
    event id, returns (5.5, -120) and not the pair just stored. *)
Theorem earliest_ignores_event_id :
  let t := insert_or_replace baseline_over_example other_event_row in
  In other_event_row t
  /\ select_earliest t (market_type other_event_row) (outcome_type other_event_row)
       (player_name other_event_row)
     = Some (Some (11 # 2), (-120)%Z)
  /\ (point_value other_event_row, odds other_event_row)
     = (Some (13 # 2), (-110)%Z).
Proof.
  cbv zeta. split; [right; left; reflexivity |]. split; reflexivity.
Qed.

(** ** Exceptions inside the scan of an event *)

Lemma for_each_ext {A S : Type} (body1 body2 : A -> S -> S * option exn)
    (l : list A) :
  (forall x, In x l -> forall s, body1 x s = body2 x s) ->
  forall s, for_each body1 l s = for_each body2 l s.
Proof.
  induction l as [| x l IH]; intros H s; cbn; [reflexivity |].
  rewrite (H x (or_introl eq_refl) s).
  destruct (body2 x s) as [s' [e |]]; [reflexivity |].
  apply IH. intros y Hy. apply H. right. exact Hy.
Qed.

(** The classifier depends on the iteration order only through the
    pairing of the markets of the payload. *)
Lemma collect_results_ext (so1 so2 : list string -> list string)
    (t : table) (props_ : props) (ev ct : string) (pinnacle_data : bookmaker) :
  In pinnacle_data (p_bookmakers props_) ->
  (forall b m, In b (p_bookmakers props_) -> In m (bk_markets b) ->
     add_projected_values so1 (mk_outcomes m)
     = add_projected_values so2 (mk_outcomes m)) ->
  collect_results so1 t props_ ev ct pinnacle_data
  = collect_results so2 t props_ ev ct pinnacle_data.
Proof.
  intros Hpin H. unfold collect_results.
  apply for_each_ext; intros b Hb s; unfold bookmaker_body.
  destruct (bk_key b =? "pinnacle"); [reflexivity |].
  apply for_each_ext; intros m Hm s'; unfold market_body.
  destruct (find (fun m0 => mk_key m0 =? mk_key m) (bk_markets pinnacle_data))
    as [pm |] eqn:Hpm; [| reflexivity].
  apply find_some in Hpm; destruct Hpm as [Hpm _].
  rewrite (H b m Hb Hm), (H pinnacle_data pm Hpin Hpm); reflexivity.
Qed.

Lemma find_favorable_lines_ext (so1 so2 : list string -> list string)
    (t : table) (props_ : props) (ev ct : string) :
  (forall b m, In b (p_bookmakers props_) -> In m (bk_markets b) ->
     add_projected_values so1 (mk_outcomes m)
     = add_projected_values so2 (mk_outcomes m)) ->
  find_favorable_lines so1 t props_ ev ct = find_favorable_lines so2 t props_ ev ct.
Proof.
  intros H. unfold find_favorable_lines.
  destruct (find (fun b => bk_key b =? "pinnacle") (p_bookmakers props_))
    as [pinnacle_data |] eqn:Hfind; [| reflexivity].
  apply find_some in Hfind. destruct Hfind as [Hpin _].
  rewrite (collect_results_ext so1 so2 t props_ ev ct pinnacle_data Hpin H).
  reflexivity.
Qed.

(** A market without an Over is returned as it is. *)
Lemma add_projected_loop_no_over (outcomes : list outcome) :
  (forall o, In o outcomes -> lower (name o) <> "over") ->
  forall descriptions result_,
    add_projected_loop outcomes descriptions result_ = Ok result_.
Proof.
  intros Hno. induction descriptions as [| d ds IH]; intros result_; cbn;
    [reflexivity |].
  destruct (find_side outcomes d "over") as [o |] eqn:Hf; [| apply IH].
  apply find_some in Hf. destruct Hf as [Hin Hc].
  apply andb_true_iff in Hc. destruct Hc as [_ Hc]. to_prop.
  exfalso. exact (Hno o Hin Hc).
Qed.

Lemma add_projected_values_no_over (set_order : list string -> list string)
    (outcomes : list outcome) :
  (forall o, In o outcomes -> lower (name o) <> "over") ->
  add_projected_values set_order outcomes = Ok outcomes.
Proof.
  intros Hno. unfold add_projected_values.
  rewrite (add_projected_loop_no_over outcomes Hno). reflexivity.
Qed.

(** A set with one distinct element is iterated in one way. *)
Lemma set_order_single (set_order : list string -> list string) (l : list string)
    (d : string) :
  set_order_ok set_order -> nodup string_dec l = [d] -> set_order l = [d].
Proof.
  intros Hok Hd. specialize (Hok l). rewrite Hd in Hok.
  apply Permutation_length_1_inv. exact Hok.
Qed.

Lemma add_projected_values_single (set_order : list string -> list string)
    (outcomes : list outcome) (d : string) :
  set_order_ok set_order ->
  nodup string_dec (map description outcomes) = [d] ->
  add_projected_values set_order outcomes
  = add_projected_values first_occurrence_order outcomes.
Proof.
  intros Hok Hd. unfold add_projected_values, first_occurrence_order.
  rewrite (set_order_single set_order _ d Hok Hd), Hd. reflexivity.
Qed.

(** For a market of the sample scans, any admissible iteration order
    pairs as the order of first occurrence does. *)
Ltac same_pairing Hok :=
  first
    [ apply (add_projected_values_single _ _ "Player A" Hok); reflexivity
    | rewrite !add_projected_values_no_over;
      [ reflexivity
      | intros o Ho; cbn in Ho;
        repeat (destruct Ho as [<- | Ho]; [cbn; discriminate |]); destruct Ho .. ] ].

Ltac sample_markets Hok :=
  let b := fresh "b" in
  let m := fresh "m" in
  let Hb := fresh "Hb" in
  let Hm := fresh "Hm" in
  intros b m Hb Hm; cbn in Hb;
  repeat (destruct Hb as [<- | Hb];
          [cbn in Hm;
           repeat (destruct Hm as [<- | Hm]; [same_pairing Hok |]); destruct Hm |]);
  destruct Hb.

(** C6 on the code.  A book quotes the Over of an Over/Under pair at
    price zero: [add_projected_values] raises [ValueError] outside the
    inner [try], the scan of the event ends and the Yes of the next
    market is not reported, though it is reported once the zero-priced
    outcome is taken out.  A baseline row with price zero does the same
    from line 354: the outcome of Player C, which alone goes to the
    same-points list, is not reported. *)
Theorem zero_price_ends_event_scan (set_order : list string -> list string) :
  set_order_ok set_order ->
  let ev := "NYJ @ BUF" in
  let ct := "2024-01-07 13:00:00" in
  find_favorable_lines set_order [] zero_price_scan ev ct = Some ([], [])
  /\ snd (collect_results set_order [] zero_price_scan ev ct pinnacle_book)
     = Some ValueError
  /\ (exists e,
        find_favorable_lines set_order [] zero_price_removed_scan ev ct
        = Some ([], [e])
        /\ e_player e = "Player B")
  /\ find_favorable_lines set_order zero_baseline yes_scan ev ct = Some ([], [])
  /\ snd (collect_results set_order zero_baseline yes_scan ev ct pinnacle_book)
     = Some ValueError
  /\ (exists e,
        classify_outcome zero_baseline ev ct
          (book "fanduel" "FanDuel"
             [td_market [yes_at "Player B" 150; yes_at "Player C" 160]])
          (td_market [yes_at "Player B" 150; yes_at "Player C" 160])
          [yes_at "Player B" 110; yes_at "Player C" 120] (yes_at "Player C" 160)
        = Ok (Some (SamePoints, e))).
Proof.
  intros Hok ev ct.
  split; [| split; [| split; [| split; [| split]]]].
  - rewrite (find_favorable_lines_ext set_order first_occurrence_order);
      [reflexivity | sample_markets Hok].
  - rewrite (collect_results_ext set_order first_occurrence_order);
      [reflexivity | left; reflexivity | sample_markets Hok].
  - rewrite (find_favorable_lines_ext set_order first_occurrence_order);
      [| sample_markets Hok].
    eexists. split; reflexivity.
  - rewrite (find_favorable_lines_ext set_order first_occurrence_order);
      [reflexivity | sample_markets Hok].
  - rewrite (collect_results_ext set_order first_occurrence_order);
      [reflexivity | left; reflexivity | sample_markets Hok].
  - eexists. reflexivity.
Qed.

(** ** Time texts and the purge *)

Lemma compare_app (a b x y : string) :
  String.length a = String.length b ->
  String.compare (a ++ x) (b ++ y) = lex (String.compare a b) (String.compare x y).
Proof.
  revert b. induction a as [| c a IH]; intros [| d b] Hlen; try discriminate.
  - reflexivity.
  - cbn. destruct (Ascii.compare c d); try reflexivity.
    apply IH. injection Hlen as Hlen. exact Hlen.
Qed.

Lemma comparison_eqb_eq (c1 c2 : comparison) : comparison_eqb c1 c2 = true -> c1 = c2.
Proof. destruct c1, c2; cbn; congruence. Qed.

Lemma below_100_In (n : N) : (n < 100)%N -> In n below_100.
Proof.
  intros H. unfold below_100. rewrite <- (N2Nat.id n). apply in_map.
  apply in_seq. lia.
Qed.

Lemma two_digits_compare (m n : N) :
  (m < 100)%N -> (n < 100)%N ->
  String.compare (two_digits m) (two_digits n) = N.compare m n.
Proof.
  intros Hm Hn.
  assert (H : forallb (fun a => forallb (fun b =>
                comparison_eqb (String.compare (two_digits a) (two_digits b))
                               (N.compare a b)) below_100) below_100 = true)
    by (vm_compute; reflexivity).
  rewrite forallb_forall in H. specialize (H m (below_100_In m Hm)).
  rewrite forallb_forall in H. specialize (H n (below_100_In n Hn)).
  apply comparison_eqb_eq. exact H.
Qed.

Lemma lex_div_mod (m n : N) :
  lex (N.compare (m / 100) (n / 100)) (N.compare (m mod 100) (n mod 100))
  = N.compare m n.
Proof.
  pose proof (N.div_mod m 100 ltac:(discriminate)) as Hm.
  pose proof (N.div_mod n 100 ltac:(discriminate)) as Hn.
  pose proof (N.mod_lt m 100 ltac:(discriminate)) as Hm'.
  pose proof (N.mod_lt n 100 ltac:(discriminate)) as Hn'.
  remember (m / 100)%N as a. remember (m mod 100)%N as b.
  remember (n / 100)%N as c. remember (n mod 100)%N as d.
  destruct (N.compare_spec a c); destruct (N.compare_spec b d);
    destruct (N.compare_spec m n); cbn; try reflexivity; exfalso; lia.
Qed.

Lemma four_digits_compare (m n : N) :
  (m <= 9999)%N -> (n <= 9999)%N ->
  String.compare (four_digits m) (four_digits n) = N.compare m n.
Proof.
  intros Hm Hn. unfold four_digits.
  rewrite compare_app by reflexivity.
  rewrite !two_digits_compare.
  - apply lex_div_mod.
  - apply N.mod_lt. discriminate.
  - apply N.mod_lt. discriminate.
  - apply N.Div0.div_lt_upper_bound. lia.
  - apply N.Div0.div_lt_upper_bound. lia.
Qed.

Lemma compare_sep (c : ascii) (x y : string) :
  String.compare (String c "" ++ x) (String c "" ++ y) = String.compare x y.
Proof.
  cbn. unfold Ascii.compare. rewrite N.compare_refl. reflexivity.
Qed.

Lemma strftime_seconds_compare (a b : wall_clock) :
  valid_wall a -> valid_wall b ->
  String.compare (strftime_seconds a) (strftime_seconds b) = wall_compare a b.
Proof.
  intros (Hy & Hmo & Hd & Hh & Hmi & Hs) (Hy' & Hmo' & Hd' & Hh' & Hmi' & Hs').
  unfold strftime_seconds, wall_compare.
  rewrite compare_app by reflexivity.
  rewrite four_digits_compare by lia. f_equal.
  do 4 (rewrite compare_sep, compare_app by reflexivity;
        rewrite two_digits_compare by assumption; f_equal).
  rewrite compare_sep. apply two_digits_compare; assumption.
Qed.

(** After equal seconds the stored text continues with a space, the
    text of [now] with a dot or with the sign of its offset. *)
Lemma suffix_compare (zone : string) (d : aware_datetime) :
  String.compare (" " ++ zone)
    ((if (microsecond d =? 0)%N then "" else "." ++ six_digits (microsecond d))
     ++ utcoffset_text (utcoffset_minutes d)) = Lt.
Proof.
  unfold utcoffset_text.
  destruct (microsecond d =? 0)%N; [| reflexivity].
  destruct (utcoffset_minutes d <? 0)%Z; reflexivity.
Qed.

Lemma lex_CompOpp (c1 c2 : comparison) :
  CompOpp (lex c1 c2) = lex (CompOpp c1) (CompOpp c2).
Proof. destruct c1; reflexivity. Qed.

Lemma wall_compare_antisym (a b : wall_clock) :
  wall_compare a b = CompOpp (wall_compare b a).
Proof.
  unfold wall_compare. rewrite !lex_CompOpp, <- !N.compare_antisym. reflexivity.
Qed.

(** The test of the DELETE on a stored commence time. *)
Lemma commence_text_before_now (w : wall_clock) (zone : string) (d : aware_datetime) :
  valid_wall w -> valid_wall (wall d) ->
  String.ltb (et_text w zone) (isoformat_space d) = true
  <-> wall_compare (wall d) w <> Lt.
Proof.
  intros Hw Hd. unfold String.ltb, et_text, isoformat_space.
  rewrite compare_app by reflexivity.
  rewrite strftime_seconds_compare by assumption.
  rewrite suffix_compare.
  rewrite (wall_compare_antisym (wall d) w).
  destruct (wall_compare w (wall d)); cbn; split; congruence.
Qed.


Lemma jan7_valid (h mi s : N) :
  (h < 100)%N -> (mi < 100)%N -> (s < 100)%N -> valid_wall (jan7 h mi s).
Proof. intros Hh Hmi Hs. unfold valid_wall. cbn. lia. Qed.





(** The theorem for the iteration order of first occurrence. *)
Lemma zero_price_ends_event_scan_witness :
  find_favorable_lines first_occurrence_order [] zero_price_scan
    "NYJ @ BUF" "2024-01-07 13:00:00" = Some ([], []).
Proof.
  apply (zero_price_ends_event_scan first_occurrence_order).
  intros l. apply Permutation_refl.
Defined.

(** What the inner [try] does catch: a zero price of the outcome or of
    its reference outcome skips the comparison and raises nothing. *)
Lemma zero_price_outcome_skipped (t : table) (ev ct : string) (bk : bookmaker)
    (mk : market) (pins : list outcome) (o pin : outcome) :
  find_pin_outcome pins o = Some pin ->
  price pin = 0%Z \/ price o = 0%Z ->
  classify_outcome t ev ct bk mk pins o = Ok None.
Proof.
  intros Hfind Hzero. unfold classify_outcome. rewrite Hfind.
  destruct Hzero as [Hz | Hz]; rewrite Hz.
  - reflexivity.
  - destruct (american_to_implied (price pin)) as [p | e] eqn:Hp; cbn.
    + reflexivity.
    + unfold american_to_implied in Hp.
      destruct (price pin =? 0)%Z; [injection Hp as <-; reflexivity |].
      destruct (0 <? price pin)%Z; discriminate.
Qed.

(** * Further properties of the code *)

(** ** Probability model: complement, threshold and monotonicity *)

Lemma ratio_le (a b c d : Z) :
  (0 < b)%Z -> (0 < d)%Z ->
  (inject_Z a / inject_Z b <= inject_Z c / inject_Z d <-> (a * d <= c * b)%Z).
Proof.
  intros Hb Hd.
  destruct b as [| b | b]; try lia. destruct d as [| d | d]; try lia.
  rewrite <- !Qmake_Qdiv. unfold Qle. cbn [Qnum Qden]. tauto.
Qed.

(** The two sides of a price: the implied probabilities of [+x] and [-x]
    sum to one. *)
Theorem implied_complement (x : Z) :
  (0 < x)%Z ->
  exists p q,
    american_to_implied x = Ok p /\ american_to_implied (- x) = Ok q
    /\ p + q == 1.
Proof.
  intros Hx. eexists. eexists.
  split; [apply implied_positive_odds; exact Hx |].
  split; [apply implied_negative_odds; lia |].
  replace (Z.abs (- x)) with x by lia.
  assert (Hne : ~ inject_Z (x + 100) == 0).
  { intros E. pose proof (inject_Z_pos (x + 100) ltac:(lia)) as P.
    rewrite E in P. exact (Qlt_irrefl 0 P). }
  rewrite inject_Z_plus in *. change (inject_Z 100) with 100 in *.
  field. exact Hne.
Qed.

Lemma implied_complement_witness :
  exists p q,
    american_to_implied 150 = Ok p /\ american_to_implied (- 150) = Ok q
    /\ p + q == 1.
Proof. apply (implied_complement 150). reflexivity. Defined.

(** The gate [pin_prob >= 0.5] of the different-points rule, on the
    price: an implied probability is at least one half exactly for the
    prices at or below -100 and the positive prices up to +100. *)
Theorem implied_at_least_half (odds : Z) (p : Q) :
  american_to_implied odds = Ok p ->
  (1 # 2 <= p <-> (odds <= -100)%Z \/ (0 < odds <= 100)%Z).
Proof.
  intros Hp. pose proof (implied_ok_nonzero _ _ Hp) as Hne.
  change (1 # 2) with (inject_Z 1 / inject_Z 2).
  destruct (Z.lt_trichotomy odds 0) as [Hneg | [H0 | Hpos]]; [| contradiction |].
  - rewrite (implied_negative_odds odds Hneg) in Hp. injection Hp as <-.
    rewrite ratio_le by lia. lia.
  - rewrite (implied_positive_odds odds Hpos) in Hp. injection Hp as <-.
    change 100 with (inject_Z 100).
    rewrite ratio_le by lia. lia.
Qed.

Lemma implied_at_least_half_witness :
  1 # 2 <= inject_Z 125 / inject_Z 225.
Proof.
  apply (proj2 (implied_at_least_half (-125) _ eq_refl)). left. lia.
Defined.

(** Within one sign a larger price means a smaller implied probability. *)
Theorem implied_antitone (a b : Z) (p q : Q) :
  american_to_implied a = Ok p -> american_to_implied b = Ok q ->
  ((0 < a)%Z \/ (b < 0)%Z) -> (a <= b)%Z -> q <= p.
Proof.
  intros Ha Hb Hsign Hle.
  destruct Hsign as [Hpos | Hneg].
  - rewrite (implied_positive_odds a Hpos) in Ha. injection Ha as <-.
    rewrite (implied_positive_odds b ltac:(lia)) in Hb. injection Hb as <-.
    change 100 with (inject_Z 100). apply ratio_le; lia.
  - rewrite (implied_negative_odds a ltac:(lia)) in Ha. injection Ha as <-.
    rewrite (implied_negative_odds b Hneg) in Hb. injection Hb as <-.
    apply ratio_le; lia.
Qed.

Lemma implied_antitone_witness :
  inject_Z 110 / inject_Z 210 <= inject_Z 120 / inject_Z 220.
Proof.
  apply (implied_antitone (-120) (-110) _ _ eq_refl eq_refl); [right |]; lia.
Defined.

(** ** Projected value: errors, bounds and symmetry *)






(** ** Market labels ([transform_string]) *)

Lemma has_char_app (c : ascii) (a b : string) :
  has_char c (a ++ b) = has_char c a || has_char c b.
Proof.
  induction a as [| d a IH]; cbn; [reflexivity |].
  rewrite IH. apply orb_assoc.
Qed.

Lemma ascii_lower_underscore (c : ascii) :
  (ascii_lower c =? "_")%char = (c =? "_")%char.
Proof. destruct c as [[] [] [] [] [] [] [] []]; reflexivity. Qed.

Lemma ascii_upper_underscore (c : ascii) :
  (ascii_upper c =? "_")%char = (c =? "_")%char.
Proof. destruct c as [[] [] [] [] [] [] [] []]; reflexivity. Qed.

Lemma lower_underscore (s : string) : has_char "_" (lower s) = has_char "_" s.
Proof.
  induction s as [| c s IH]; cbn; [reflexivity |].
  rewrite ascii_lower_underscore, IH. reflexivity.
Qed.

Lemma capitalize_underscore (s : string) :
  has_char "_" (capitalize s) = has_char "_" s.
Proof.
  destruct s as [| c s]; cbn; [reflexivity |].
  rewrite ascii_upper_underscore, lower_underscore. reflexivity.
Qed.

Lemma split_underscore_parts (s cur : string) :
  has_char "_" cur = false ->
  Forall (fun p => has_char "_" p = false) (split_underscore s cur).
Proof.
  revert cur. induction s as [| c s IH]; intros cur Hcur; cbn.
  - constructor; [exact Hcur | constructor].
  - destruct (c =? "_")%char eqn:E.
    + constructor; [exact Hcur |]. apply IH. reflexivity.
    + apply IH. rewrite has_char_app, Hcur. cbn. rewrite E. reflexivity.
Qed.

Lemma join_space_underscore (l : list string) :
  Forall (fun p => has_char "_" p = false) l ->
  has_char "_" (join_space l) = false.
Proof.
  induction 1 as [| p l Hp Hl IH]; [reflexivity |].
  destruct l as [| p' l']; [exact Hp |].
  change (join_space (p :: p' :: l')) with (p ++ " " ++ join_space (p' :: l'))%string.
  rewrite !has_char_app, Hp, IH. reflexivity.
Qed.

(** Splitting [a_r] when [a] has no underscore: the first part is [a]. *)
Lemma split_underscore_head (a r cur : string) :
  has_char "_" a = false ->
  split_underscore (a ++ "_" ++ r) cur
  = (cur ++ a)%string :: split_underscore r EmptyString.
Proof.
  revert cur. induction a as [| c a IH]; intros cur Ha; cbn.
  - f_equal. induction cur as [| d cur IHc]; cbn; congruence.
  - cbn in Ha. apply orb_false_iff in Ha. destruct Ha as [Hc Ha].
    rewrite Hc, (IH _ Ha). f_equal.
    induction cur as [| d cur IHc]; cbn; congruence.
Qed.

Lemma split_underscore_whole (s cur : string) :
  has_char "_" s = false -> split_underscore s cur = [(cur ++ s)%string].
Proof.
  revert cur. induction s as [| c s IH]; intros cur Hs; cbn.
  - f_equal. induction cur as [| d cur IHc]; cbn; congruence.
  - cbn in Hs. apply orb_false_iff in Hs. destruct Hs as [Hc Hs].
    rewrite Hc, (IH _ Hs). f_equal.
    induction cur as [| d cur IHc]; cbn; congruence.
Qed.

Lemma split_underscore_nonempty (s cur : string) : split_underscore s cur <> [].
Proof.
  revert cur. induction s as [| c s IH]; intros cur; cbn; [discriminate |].
  destruct (c =? "_")%char; [discriminate | apply IH].
Qed.

(** The label of a market never contains an underscore. *)
Theorem transform_string_no_underscore (input_str : string) :
  has_char "_" (transform_string input_str) = false.
Proof.
  unfold transform_string.
  pose proof (split_underscore_parts input_str EmptyString eq_refl) as Hparts.
  set (parts := split_underscore input_str EmptyString) in *.
  assert (Hnth : forall n, has_char "_" (capitalize (nth n parts EmptyString)) = false).
  { intros n. rewrite capitalize_underscore.
    destruct (nth_in_or_default n parts EmptyString) as [Hin | ->]; [| reflexivity].
    rewrite Forall_forall in Hparts. apply Hparts. exact Hin. }
  assert (Hfirst : has_char "_"
            (if (1 <? List.length parts)%nat then capitalize (nth 1 parts EmptyString)
             else capitalize (nth 0 parts EmptyString)) = false)
    by (destruct (1 <? List.length parts)%nat; apply Hnth).
  destruct (2 <? List.length parts)%nat; [| exact Hfirst].
  rewrite !has_char_app, Hfirst. cbn [has_char orb].
  replace (has_char "_" " ") with false by reflexivity. cbn [orb].
  apply join_space_underscore.
  apply Forall_forall. intros p Hp. apply in_map_iff in Hp.
  destruct Hp as [p' [<- Hp']]. rewrite capitalize_underscore.
  rewrite Forall_forall in Hparts. apply Hparts.
  rewrite <- (firstn_skipn 2 parts). apply in_or_app. right. exact Hp'.
Qed.

(** The text before the first underscore is dropped: a key without an
    underscore is capitalised as a whole, [a_b] gives [B], [a_b_c] gives
    [B C], and the label does not depend on the first part. *)
Theorem transform_string_drops_first_part :
  (forall s, has_char "_" s = false -> transform_string s = capitalize s)
  /\ (forall a b, has_char "_" a = false -> has_char "_" b = false ->
        transform_string (a ++ "_" ++ b) = capitalize b)
  /\ (forall a b c,
        has_char "_" a = false -> has_char "_" b = false -> has_char "_" c = false ->
        transform_string (a ++ "_" ++ b ++ "_" ++ c)
        = (capitalize b ++ " " ++ capitalize c)%string)
  /\ (forall a a' r, has_char "_" a = false -> has_char "_" a' = false ->
        transform_string (a ++ "_" ++ r) = transform_string (a' ++ "_" ++ r)).
Proof.
  split; [| split; [| split]].
  - intros s Hs. unfold transform_string.
    rewrite (split_underscore_whole s EmptyString Hs). reflexivity.
  - intros a b Ha Hb. unfold transform_string.
    rewrite (split_underscore_head a b EmptyString Ha).
    rewrite (split_underscore_whole b EmptyString Hb). reflexivity.
  - intros a b c Ha Hb Hc. unfold transform_string.
    rewrite (split_underscore_head a _ EmptyString Ha).
    rewrite (split_underscore_head b c EmptyString Hb).
    rewrite (split_underscore_whole c EmptyString Hc). reflexivity.
  - intros a a' r Ha Ha'. unfold transform_string.
    rewrite (split_underscore_head a r EmptyString Ha).
    rewrite (split_underscore_head a' r EmptyString Ha').
    pose proof (split_underscore_nonempty r EmptyString) as Hne.
    destruct (split_underscore r EmptyString) as [| p ps]; [contradiction |].
    reflexivity.
Qed.

Lemma transform_string_drops_first_part_witness :
  transform_string "player_pass_yds" = "Pass Yds"
  /\ transform_string "player_pass_yds" = transform_string "team_pass_yds".
Proof.
  split.
  - exact (proj1 (proj2 (proj2 transform_string_drops_first_part))
             "player" "pass" "yds" eq_refl eq_refl eq_refl).
  - exact (proj2 (proj2 (proj2 transform_string_drops_first_part))
             "player" "team" "pass_yds" eq_refl eq_refl).
Defined.

(** ** Pairing of Over and Under ([add_projected_values]) *)

Lemma find_side_some (outcomes : list outcome) (desc side : string) (o : outcome) :
  find_side outcomes desc side = Some o ->
  In o outcomes /\ description o = desc /\ lower (name o) = side.
Proof.
  unfold find_side. intros H. apply find_some in H. destruct H as [Hin Hc].
  apply andb_true_iff in Hc. destruct Hc as [H1 H2]. to_prop. tauto.
Qed.

Lemma find_side_absent (outcomes : list outcome) (desc side : string) :
  forallb (fun o => negb (lower (name o) =? side)) outcomes = true ->
  find_side outcomes desc side = None.
Proof.
  intros H. unfold find_side.
  induction outcomes as [| o l IH]; [reflexivity |].
  cbn in H |- *. apply andb_true_iff in H. destruct H as [Ho Hl].
  apply negb_true_iff in Ho. rewrite Ho, andb_false_r. apply IH. exact Hl.
Qed.

Lemma add_projected_loop_unpaired (outcomes : list outcome) :
  (forall d, find_side outcomes d "over" = None
             \/ find_side outcomes d "under" = None) ->
  forall descriptions result_,
    add_projected_loop outcomes descriptions result_ = Ok result_.
Proof.
  intros Hno. induction descriptions as [| d ds IH]; intros result_; cbn;
    [reflexivity |].
  destruct (Hno d) as [-> | ->].
  - apply IH.
  - destruct (find_side outcomes d "over"); apply IH.
Qed.

(** A market in which no player has both an Over and an Under is
    returned as it is, whatever the iteration order. *)
Theorem add_projected_values_unpaired (set_order : list string -> list string)
    (outcomes : list outcome) :
  (forall d, find_side outcomes d "over" = None
             \/ find_side outcomes d "under" = None) ->
  add_projected_values set_order outcomes = Ok outcomes.
Proof.
  intros Hno. unfold add_projected_values.
  rewrite (add_projected_loop_unpaired outcomes Hno). reflexivity.
Qed.

Lemma add_projected_values_unpaired_witness :
  add_projected_values (fun l => l) [yes_at "Player B" 150; under_at (11 # 2) (-120)]
  = Ok [yes_at "Player B" 150; under_at (11 # 2) (-120)].
Proof.
  apply add_projected_values_unpaired. intros d. left.
  apply find_side_absent. reflexivity.
Defined.

Lemma add_projected_loop_from_pair (outcomes : list outcome) :
  forall descriptions result_ r,
    Forall (from_pair outcomes) result_ ->
    add_projected_loop outcomes descriptions result_ = Ok r ->
    Forall (from_pair outcomes) r.
Proof.
  induction descriptions as [| d ds IH]; intros result_ r Hres Hloop; cbn in Hloop.
  - injection Hloop as <-. exact Hres.
  - destruct (find_side outcomes d "over") as [over |] eqn:Hover;
      [| apply (IH result_ r Hres Hloop)].
    destruct (find_side outcomes d "under") as [under |] eqn:Hunder;
      [| apply (IH result_ r Hres Hloop)].
    destruct (point over) as [pt |] eqn:Hpt; [| discriminate].
    destruct (get_projected_value (price over) (price under) pt) as [v | e] eqn:Hv;
      cbn [bind] in Hloop; [| discriminate].
    apply find_side_some in Hover, Hunder.
    destruct Hover as (Ho1 & Ho2 & Ho3). destruct Hunder as (Hu1 & Hu2 & Hu3).
    refine (IH _ r _ Hloop). apply Forall_app. split; [exact Hres |].
    assert (Hd : description over = description under) by congruence.
    constructor; [| constructor; [| constructor]].
    + exists over, under, pt, v. tauto.
    + exists over, under, pt, v. tauto.
Qed.

(** What [add_projected_values] returns is either the market as it was
    given, or a nonempty list made of Overs and Unders of complete pairs
    only, each carrying the projected value of its pair: an outcome
    without a partner is dropped as soon as one pair exists. *)
Theorem add_projected_values_shape (set_order : list string -> list string)
    (outcomes r : list outcome) :
  add_projected_values set_order outcomes = Ok r ->
  r = outcomes \/ (r <> [] /\ Forall (from_pair outcomes) r).
Proof.
  unfold add_projected_values. intros H.
  destruct (add_projected_loop outcomes (set_order (map description outcomes)) [])
    as [res | e] eqn:Hloop; cbn [bind] in H; [| discriminate].
  injection H as <-.
  destruct res as [| o res]; [left; reflexivity |].
  right. split; [discriminate |].
  apply (add_projected_loop_from_pair outcomes _ [] _ (Forall_nil _) Hloop).
Qed.

Lemma add_projected_values_shape_witness :
  exists r,
    add_projected_values first_occurrence_order
      [yes_at "Player A" 150; pin_over (11 # 2) (-125); under_at (11 # 2) 105] = Ok r
    /\ List.length r = 2%nat
    /\ Forall (from_pair [yes_at "Player A" 150; pin_over (11 # 2) (-125);
                          under_at (11 # 2) 105]) r.
Proof.
  eexists. split; [reflexivity |]. split; [reflexivity |].
  destruct (add_projected_values_shape first_occurrence_order
              [yes_at "Player A" 150; pin_over (11 # 2) (-125); under_at (11 # 2) 105]
              _ eq_refl) as [E | [_ H]]; [discriminate E | exact H].
Defined.

Lemma get_projected_value_zero (over_odds under_odds : Z) (pt : Q) :
  over_odds = 0%Z \/ under_odds = 0%Z ->
  get_projected_value over_odds under_odds pt = Raise ValueError.
Proof.
  intros [-> | ->]; [reflexivity |].
  unfold get_projected_value.
  destruct (american_to_implied over_odds) as [p | e] eqn:E; cbn [bind];
    [reflexivity |].
  unfold american_to_implied in E.
  destruct (over_odds =? 0)%Z; [congruence |].
  destruct (0 <? over_odds)%Z; discriminate.
Qed.

Lemma add_projected_loop_bad_pair (outcomes : list outcome) (d : string)
    (over under : outcome) :
  find_side outcomes d "over" = Some over ->
  find_side outcomes d "under" = Some under ->
  point over = None \/ price over = 0%Z \/ price under = 0%Z ->
  forall descriptions result_,
    In d descriptions ->
    exists e, add_projected_loop outcomes descriptions result_ = Raise e.
Proof.
  intros Hover Hunder Hbad.
  induction descriptions as [| d' ds IH]; intros result_ Hin; [destruct Hin |].
  cbn. destruct (string_dec d' d) as [-> | Hne].
  - rewrite Hover, Hunder.
    destruct (point over) as [pt |] eqn:Hpt; [| eauto].
    destruct Hbad as [Hbad | Hbad]; [discriminate |].
    rewrite (get_projected_value_zero _ _ pt Hbad). cbn [bind]. eauto.
  - destruct Hin as [E | Hin]; [contradiction |].
    destruct (find_side outcomes d' "over") as [o1 |]; [| apply IH; exact Hin].
    destruct (find_side outcomes d' "under") as [u1 |]; [| apply IH; exact Hin].
    destruct (point o1) as [pt1 |]; [| eauto].
    destruct (get_projected_value (price o1) (price u1) pt1); cbn [bind];
      [apply IH; exact Hin | eauto].
Qed.

(** One bad pair spoils the market: when some player's Over has no point,
    or the player's Over or Under is priced at zero, the call raises and
    returns no outcome at all, whatever admissible order the set of
    players is iterated in. *)
Theorem add_projected_values_bad_pair (set_order : list string -> list string)
    (outcomes : list outcome) (d : string) (over under : outcome) :
  set_order_ok set_order ->
  find_side outcomes d "over" = Some over ->
  find_side outcomes d "under" = Some under ->
  point over = None \/ price over = 0%Z \/ price under = 0%Z ->
  exists e, add_projected_values set_order outcomes = Raise e.
Proof.
  intros Hok Hover Hunder Hbad.
  assert (Hin : In d (set_order (map description outcomes))).
  { apply (Permutation_in _ (Hok _)). apply nodup_In.
    destruct (find_side_some _ _ _ _ Hover) as (Ho & Hd & _).
    rewrite <- Hd. apply in_map. exact Ho. }
  destruct (add_projected_loop_bad_pair outcomes d over under Hover Hunder Hbad
              _ [] Hin) as [e He].
  exists e. unfold add_projected_values. rewrite He. reflexivity.
Qed.

Lemma add_projected_values_bad_pair_witness :
  exists e,
    add_projected_values first_occurrence_order
      [yes_at "Player B" 150; pin_over (11 # 2) 0; under_at (11 # 2) (-120)]
    = Raise e.
Proof.
  apply (add_projected_values_bad_pair first_occurrence_order _ "Player A"
           (pin_over (11 # 2) 0) (under_at (11 # 2) (-120))).
  - intros l. apply Permutation_refl.
  - reflexivity.
  - reflexivity.
  - right. left. reflexivity.
Defined.

(** ** What every reported entry satisfies *)

Lemma for_each_invariant_in {A S : Type} (I : S -> Prop)
    (body : A -> S -> S * option exn) (l : list A) :
  (forall x s, In x l -> I s -> I (fst (body x s))) ->
  forall s, I s -> I (fst (for_each body l s)).
Proof.
  induction l as [| x l IH]; intros Hbody s Hs; cbn.
  - exact Hs.
  - pose proof (Hbody x s (or_introl eq_refl) Hs) as Hx.
    destruct (body x s) as [s' [e |]]; cbn in *.
    + exact Hx.
    + apply IH; [| exact Hx]. intros y s0 Hy. apply Hbody. right. exact Hy.
Qed.

(** The entry appended for an outcome, read back from the result of the
    loop body. *)
Lemma classify_outcome_emits (t : table) (ev ct : string) (bk : bookmaker)
    (mk : market) (pins : list outcome) (o : outcome) (b : bucket)
    (e : result_entry) :
  classify_outcome t ev ct bk mk pins o = Ok (Some (b, e)) ->
  exists pin pin_prob other_prob,
    find_pin_outcome pins o = Some pin
    /\ american_to_implied (price pin) = Ok pin_prob
    /\ american_to_implied (price o) = Ok other_prob
    /\ compare_with_earliest t (mk_key mk) (name o) (description o)
         (point pin) (price pin)
       = Ok (e_point_move e, e_odds_pct_move e, e_is_favorable e)
    /\ categorize o pin pin_prob (pin_prob - other_prob)
         (calculate_point_delta o pin) = Ok (Some b)
    /\ e_commence_time e = ct /\ e_event_name e = ev
    /\ e_source e = bk_title bk /\ e_player e = description o
    /\ e_type e = name o /\ e_bet_type e = transform_string (mk_key mk)
    /\ e_odds e = price o /\ e_delta e = pin_prob - other_prob
    /\ e_point e = point o
    /\ e_pinnacle e
       = (description pin, name pin,
          match point o with Some _ => point pin | None => None end, price pin)
    /\ e_point_delta e
       = match calculate_point_delta o pin with Some d => d | None => 0 end.
Proof.
  unfold classify_outcome.
  destruct (find_pin_outcome pins o) as [pin |]; [| discriminate].
  destruct (american_to_implied (price pin)) as [pin_prob | ex] eqn:Hpin; cbn [bind].
  2:{ destruct ex; discriminate. }
  destruct (american_to_implied (price o)) as [other_prob | ex] eqn:Hother; cbn [bind].
  2:{ destruct ex; discriminate. }
  cbv zeta.
  destruct (compare_with_earliest _ _ _ _ _ _) as [[[pm om] fl] | ex] eqn:Hcmp;
    cbn [bind]; [| discriminate].
  destruct (categorize _ _ _ _ _) as [[b' |] | ex] eqn:Hcat; cbn; try discriminate.
  intros E. injection E as <- <-. cbn.
  exists pin, pin_prob, other_prob. repeat split; assumption || reflexivity.
Qed.

(** A property of the entries that the loop body grants holds of both
    lists collected for the event. *)
Lemma collect_results_forall (set_order : list string -> list string) (t : table)
    (props_ : props) (ev ct : string) (pinnacle_data : bookmaker)
    (P : bucket -> result_entry -> Prop) :
  (forall bk mk pm outs pins o b e,
     In bk (p_bookmakers props_) -> (bk_key bk =? "pinnacle") = false ->
     In mk (bk_markets bk) ->
     find (fun m => mk_key m =? mk_key mk) (bk_markets pinnacle_data) = Some pm ->
     add_projected_values set_order (mk_outcomes mk) = Ok outs ->
     add_projected_values set_order (mk_outcomes pm) = Ok pins ->
     In o outs ->
     classify_outcome t ev ct bk mk pins o = Ok (Some (b, e)) -> P b e) ->
  let acc := fst (collect_results set_order t props_ ev ct pinnacle_data) in
  Forall (P DifferentPoints) (fst acc) /\ Forall (P SamePoints) (snd acc).
Proof.
  intros Hbody. cbv zeta. unfold collect_results.
  set (I := fun acc : results => Forall (P DifferentPoints) (fst acc)
                                 /\ Forall (P SamePoints) (snd acc)).
  change (I (fst (for_each (bookmaker_body set_order t ev ct pinnacle_data)
                    (p_bookmakers props_) ([], [])))).
  apply for_each_invariant_in; [| split; constructor].
  intros bk acc Hbk Hacc. unfold bookmaker_body.
  destruct (bk_key bk =? "pinnacle") eqn:Hkey; [exact Hacc |].
  apply for_each_invariant_in; [| exact Hacc].
  intros mk acc1 Hmk Hacc1. unfold market_body.
  destruct (find _ _) as [pm |] eqn:Hpm; [| exact Hacc1].
  destruct (add_projected_values set_order (mk_outcomes mk)) as [outs | ex] eqn:Houts;
    [| exact Hacc1].
  destruct (add_projected_values set_order (mk_outcomes pm)) as [pins | ex] eqn:Hpins;
    [| exact Hacc1].
  apply for_each_invariant_in; [| exact Hacc1].
  intros o acc2 Ho Hacc2. unfold outcome_body.
  destruct (classify_outcome t ev ct bk mk pins o) as [[[b e] |] | ex] eqn:Hc;
    cbn [fst]; try exact Hacc2.
  pose proof (Hbody bk mk pm outs pins o b e Hbk Hkey Hmk Hpm Houts Hpins Ho Hc) as HP.
  destruct Hacc2 as [Hd Hs].
  assert (He : forall b', P b' e -> Forall (P b') [e])
    by (intros b' H; constructor; [exact H | constructor]).
  destruct b; unfold I, append_to; cbn [fst snd]; split; try assumption;
    apply Forall_app; split; auto.
Qed.

Lemma find_favorable_lines_forall (set_order : list string -> list string) (t : table)
    (props_ : props) (ev ct : string) (P : bucket -> result_entry -> Prop)
    (different same : list result_entry) :
  (forall pinnacle_data bk mk pm outs pins o b e,
     find (fun b0 => bk_key b0 =? "pinnacle") (p_bookmakers props_) = Some pinnacle_data ->
     In bk (p_bookmakers props_) -> (bk_key bk =? "pinnacle") = false ->
     In mk (bk_markets bk) ->
     find (fun m => mk_key m =? mk_key mk) (bk_markets pinnacle_data) = Some pm ->
     add_projected_values set_order (mk_outcomes mk) = Ok outs ->
     add_projected_values set_order (mk_outcomes pm) = Ok pins ->
     In o outs ->
     classify_outcome t ev ct bk mk pins o = Ok (Some (b, e)) -> P b e) ->
  find_favorable_lines set_order t props_ ev ct = Some (different, same) ->
  Forall (P DifferentPoints) different /\ Forall (P SamePoints) same.
Proof.
  intros Hbody. unfold find_favorable_lines.
  destruct (find _ _) as [pinnacle_data |] eqn:Hfind; [| discriminate].
  intros E. injection E as <- <-.
  destruct (collect_results_forall set_order t props_ ev ct pinnacle_data P
              (fun bk mk pm outs pins o b e =>
                 Hbody pinnacle_data bk mk pm outs pins o b e eq_refl)) as [Hd Hs].
  split; eapply Permutation_Forall; try apply sort_desc_perm; assumption.
Qed.

(** Case analysis on every test left in the goal. *)
Ltac split_ifs :=
  repeat match goal with
         | |- context [if ?c then _ else _] => destruct c
         | |- context [match ?c with Some _ => _ | None => _ end] => destruct c
         end.

Lemma categorize_different (o pin : outcome) (pin_prob prob_delta : Q)
    (point_delta : option Q) :
  categorize o pin pin_prob prob_delta point_delta = Ok (Some DifferentPoints) ->
  exists cp d,
    point o = Some cp /\ point_delta = Some d
    /\ ((name o = "Over" /\ cp < get_point_0 pin)
        \/ (name o = "Under" /\ get_point_0 pin < cp))
    /\ 1 # 2 <= pin_prob /\ (1 <= d \/ 2 <= prob_delta).
Proof.
  unfold categorize.
  destruct (negb (in_list (name o) ["No"; "Yes"; "Under"; "Over"])); [discriminate |].
  destruct (point o) as [cp |]; [| split_ifs; discriminate].
  destruct ((name o =? "Over") && Qlt_bool cp (get_point_0 pin)
            || (name o =? "Under") && Qlt_bool (get_point_0 pin) cp) eqn:Hdir;
    cbn [andb].
  2:{ split_ifs; discriminate. }
  destruct (Qle_bool (1 # 2) pin_prob) eqn:Hhalf.
  2:{ split_ifs; discriminate. }
  destruct point_delta as [d |]; [| discriminate].
  destruct (Qle_bool 1 d || Qle_bool 2 prob_delta) eqn:Hd.
  2:{ split_ifs; discriminate. }
  intros _. exists cp, d. apply direction_test in Hdir.
  apply orb_true_iff in Hd. to_prop.
  repeat split; try assumption.
  destruct Hd as [Hd | Hd]; to_prop; tauto.
Qed.

Lemma categorize_same (o pin : outcome) (pin_prob prob_delta : Q)
    (point_delta : option Q) :
  categorize o pin pin_prob prob_delta point_delta = Ok (Some SamePoints) ->
  (point o = None
   /\ (name o = "Yes" \/ name o = "Under" \/ name o = "Over")
   /\ 1 # 100 <= prob_delta /\ (price pin <= 300)%Z)
  \/ 3 < prob_delta.
Proof.
  unfold categorize.
  destruct (in_list (name o) ["No"; "Yes"; "Under"; "Over"]) eqn:Hin; cbn [negb];
    [| discriminate].
  destruct (point o) as [cp |].
  - destruct (Qlt_bool 3 prob_delta) eqn:H3.
    + intros _. right. to_prop. exact H3.
    + rewrite andb_false_r.
      split_ifs; discriminate.
  - destruct (negb (name o =? "No")) eqn:Hno; cbn [andb]; [| discriminate].
    destruct (Qle_bool ATD_DELTA prob_delta) eqn:Hd; cbn [andb]; [| discriminate].
    destruct (price pin <=? 300)%Z eqn:Hp; [| discriminate].
    intros _. left. apply negb_true_iff in Hno. to_prop.
    split; [reflexivity |]. split; [| split; assumption].
    unfold in_list in Hin. cbn [existsb] in Hin.
    repeat (apply orb_true_iff in Hin; destruct Hin as [Hin | Hin]);
      to_prop; try tauto; try discriminate; try contradiction.
Qed.

(** Every different-points entry is an Over or an Under that carries a
    point, its point delta is at least 1, and the implied probability of
    the reference price is at least one half. *)
Theorem different_points_entries (set_order : list string -> list string)
    (t : table) (props_ : props) (ev ct : string)
    (different same : list result_entry) :
  find_favorable_lines set_order t props_ ev ct = Some (different, same) ->
  Forall (fun e =>
            (e_type e = "Over" \/ e_type e = "Under")
            /\ (exists cp, e_point e = Some cp)
            /\ 1 <= e_point_delta e
            /\ exists p, american_to_implied (snd (e_pinnacle e)) = Ok p
                         /\ 1 # 2 <= p) different.
Proof.
  intros H.
  apply (find_favorable_lines_forall set_order t props_ ev ct
           (fun b e => match b with
                       | DifferentPoints =>
                           (e_type e = "Over" \/ e_type e = "Under")
                           /\ (exists cp, e_point e = Some cp)
                           /\ 1 <= e_point_delta e
                           /\ exists p, american_to_implied (snd (e_pinnacle e)) = Ok p
                                        /\ 1 # 2 <= p
                       | SamePoints => True
                       end) different same); [| exact H].
  intros pinnacle_data bk mk pm outs pins o b e _ _ _ _ _ _ _ _ Hc.
  destruct b; [| exact I].
  destruct (classify_outcome_emits _ _ _ _ _ _ _ _ _ Hc)
    as (pin & pin_prob & other_prob & _ & Hpin & Hother & _ & Hcat & _ & _ & _ & _
        & Htype & _ & _ & _ & Hpt & Hpinn & Hpd).
  destruct (categorize_different _ _ _ _ _ Hcat)
    as (cp & d & Hcp & Hd & Hdir & Hhalf & Hone).
  destruct (prob_delta_bounds _ _ _ _ Hpin Hother) as [_ Hlt].
  rewrite Htype, Hpt, Hpd, Hpinn, Hd, Hcp. cbn [snd].
  split; [destruct Hdir as [[E _] | [E _]]; tauto |].
  split; [eauto |].
  split; [destruct Hone as [K | K]; [exact K | lra] |].
  exists pin_prob. split; assumption.
Qed.

(** Every same-points entry is a Yes, Over or Under (never a No) without
    a point, with point delta 0, a probability delta of at least 0.01 and a
    reference price of at most +300. *)
Theorem same_points_entries (set_order : list string -> list string)
    (t : table) (props_ : props) (ev ct : string)
    (different same : list result_entry) :
  find_favorable_lines set_order t props_ ev ct = Some (different, same) ->
  Forall (fun e =>
            (e_type e = "Yes" \/ e_type e = "Under" \/ e_type e = "Over")
            /\ e_point e = None /\ e_point_delta e = 0
            /\ 1 # 100 <= e_delta e
            /\ (snd (e_pinnacle e) <= 300)%Z) same.
Proof.
  intros H.
  apply (find_favorable_lines_forall set_order t props_ ev ct
           (fun b e => match b with
                       | DifferentPoints => True
                       | SamePoints =>
                           (e_type e = "Yes" \/ e_type e = "Under" \/ e_type e = "Over")
                           /\ e_point e = None /\ e_point_delta e = 0
                           /\ 1 # 100 <= e_delta e
                           /\ (snd (e_pinnacle e) <= 300)%Z
                       end) different same); [| exact H].
  intros pinnacle_data bk mk pm outs pins o b e _ _ _ _ _ _ _ _ Hc.
  destruct b; [exact I |].
  destruct (classify_outcome_emits _ _ _ _ _ _ _ _ _ Hc)
    as (pin & pin_prob & other_prob & _ & Hpin & Hother & _ & Hcat & _ & _ & _ & _
        & Htype & _ & _ & Hdelta & Hpt & Hpinn & Hpd).
  destruct (prob_delta_bounds _ _ _ _ Hpin Hother) as [_ Hlt].
  destruct (categorize_same _ _ _ _ _ Hcat) as [(Hnone & Hname & Hd & Hp) | K];
    [| exfalso; lra].
  rewrite Htype, Hpt, Hpd, Hpinn, Hdelta. cbn [snd].
  unfold calculate_point_delta. rewrite Hnone.
  repeat split; assumption.
Qed.

Lemma different_points_entries_witness :
  exists e,
    find_favorable_lines first_occurrence_order [] different_points_scan
      "NYJ @ BUF" "2024-01-07 13:00:00" = Some ([e], [])
    /\ e_type e = "Over" /\ 1 <= e_point_delta e.
Proof.
  eexists. split; [reflexivity |].
  pose proof (different_points_entries first_occurrence_order [] different_points_scan
                "NYJ @ BUF" "2024-01-07 13:00:00" _ _ eq_refl) as H.
  apply Forall_inv in H. destruct H as (_ & _ & H1 & _).
  split; [reflexivity | exact H1].
Defined.

Lemma same_points_entries_witness :
  exists e,
    find_favorable_lines first_occurrence_order [] zero_price_removed_scan
      "NYJ @ BUF" "2024-01-07 13:00:00" = Some ([], [e])
    /\ 1 # 100 <= e_delta e /\ (snd (e_pinnacle e) <= 300)%Z.
Proof.
  eexists. split; [reflexivity |].
  pose proof (same_points_entries first_occurrence_order [] zero_price_removed_scan
                "NYJ @ BUF" "2024-01-07 13:00:00" _ _ eq_refl) as H.
  apply Forall_inv in H. destruct H as (_ & _ & _ & H1 & H2).
  split; assumption.
Defined.

(** The outcomes [add_projected_values] returns are outcomes of the
    market, up to the key [projected_value]. *)
Lemma add_projected_values_origin (set_order : list string -> list string)
    (outcomes r : list outcome) :
  add_projected_values set_order outcomes = Ok r ->
  forall o, In o r ->
    exists o', In o' outcomes
      /\ description o = description o' /\ name o = name o'
      /\ price o = price o' /\ point o = point o'.
Proof.
  unfold add_projected_values. intros H.
  destruct (add_projected_loop outcomes (set_order (map description outcomes)) [])
    as [res | e] eqn:Hloop; cbn [bind] in H; [| discriminate].
  injection H as <-. intros o Ho.
  destruct res as [| x res]; cbn [List.length Nat.eqb] in Ho.
  - exists o. tauto.
  - pose proof (add_projected_loop_from_pair outcomes _ [] _ (Forall_nil _) Hloop) as Hall.
    rewrite Forall_forall in Hall.
    destruct (Hall o Ho) as (over & under & pt & v & Hi1 & Hi2 & _ & _ & _ & _ & _ & [-> | ->]).
    + exists over. cbn. tauto.
    + exists under. cbn. tauto.
Qed.

Lemma find_pin_outcome_some (pins : list outcome) (o pin : outcome) :
  find_pin_outcome pins o = Some pin ->
  In pin pins /\ description pin = description o /\ name pin = name o.
Proof.
  unfold find_pin_outcome. intros H. apply find_some in H. destruct H as [Hin Hc].
  apply andb_true_iff in Hc. destruct Hc as [H1 H2]. to_prop. tauto.
Qed.

(** Every entry reports a quote of the payload: an outcome of a market
    of a book other than the reference book, matched with an outcome of
    the same player and label in the reference book's market of the same
    key; the reference book itself is never a source. *)
Theorem entries_report_matched_quotes (set_order : list string -> list string)
    (t : table) (props_ : props) (ev ct : string)
    (different same : list result_entry) :
  find_favorable_lines set_order t props_ ev ct = Some (different, same) ->
  Forall (fun e =>
            e_event_name e = ev /\ e_commence_time e = ct
            /\ exists pinnacle_data bk mk pm o pin,
                 find (fun b => bk_key b =? "pinnacle") (p_bookmakers props_)
                 = Some pinnacle_data
                 /\ In bk (p_bookmakers props_) /\ bk_key bk <> "pinnacle"
                 /\ In mk (bk_markets bk) /\ In o (mk_outcomes mk)
                 /\ In pm (bk_markets pinnacle_data) /\ mk_key pm = mk_key mk
                 /\ In pin (mk_outcomes pm)
                 /\ description pin = description o /\ name pin = name o
                 /\ e_source e = bk_title bk
                 /\ e_bet_type e = transform_string (mk_key mk)
                 /\ e_player e = description o /\ e_type e = name o
                 /\ e_odds e = price o /\ e_point e = point o
                 /\ snd (e_pinnacle e) = price pin)
         (different ++ same).
Proof.
  intros H.
  set (P := fun e =>
            e_event_name e = ev /\ e_commence_time e = ct
            /\ exists pinnacle_data bk mk pm o pin,
                 find (fun b => bk_key b =? "pinnacle") (p_bookmakers props_)
                 = Some pinnacle_data
                 /\ In bk (p_bookmakers props_) /\ bk_key bk <> "pinnacle"
                 /\ In mk (bk_markets bk) /\ In o (mk_outcomes mk)
                 /\ In pm (bk_markets pinnacle_data) /\ mk_key pm = mk_key mk
                 /\ In pin (mk_outcomes pm)
                 /\ description pin = description o /\ name pin = name o
                 /\ e_source e = bk_title bk
                 /\ e_bet_type e = transform_string (mk_key mk)
                 /\ e_player e = description o /\ e_type e = name o
                 /\ e_odds e = price o /\ e_point e = point o
                 /\ snd (e_pinnacle e) = price pin).
  destruct (find_favorable_lines_forall set_order t props_ ev ct
              (fun _ e => P e) different same) as [Hd Hs]; [| exact H |].
  2:{ apply Forall_app. split; assumption. }
  intros pinnacle_data bk mk pm outs pins o b e Hfind Hbk Hkey Hmk Hpm Houts Hpins Ho Hc.
  destruct (classify_outcome_emits _ _ _ _ _ _ _ _ _ Hc)
    as (pin & pin_prob & other_prob & Hpinf & _ & _ & _ & _ & Hct & Hev & Hsrc & Hpl
        & Htype & Hbet & Hodds & _ & Hpt & Hpinn & _).
  destruct (find_pin_outcome_some _ _ _ Hpinf) as (Hpin_in & Hpd & Hpn).
  destruct (add_projected_values_origin _ _ _ Houts o Ho)
    as (o' & Ho' & Od & On & Op & Opt).
  destruct (add_projected_values_origin _ _ _ Hpins pin Hpin_in)
    as (pin' & Hpin' & Pd & Pn & Pp & _).
  apply find_some in Hpm. destruct Hpm as [Hpm_in Hpm_key]. to_prop.
  unfold P. split; [exact Hev |]. split; [exact Hct |].
  exists pinnacle_data, bk, mk, pm, o', pin'.
  rewrite Hsrc, Hbet, Hpl, Htype, Hodds, Hpt, Hpinn. cbn [snd].
  repeat split; try assumption; try congruence.
Qed.

Lemma entries_report_matched_quotes_witness :
  exists e,
    find_favorable_lines first_occurrence_order [] different_points_scan
      "NYJ @ BUF" "2024-01-07 13:00:00" = Some ([e], [])
    /\ e_event_name e = "NYJ @ BUF" /\ e_commence_time e = "2024-01-07 13:00:00".
Proof.
  eexists. split; [reflexivity |].
  pose proof (entries_report_matched_quotes first_occurrence_order []
                different_points_scan "NYJ @ BUF" "2024-01-07 13:00:00" _ _ eq_refl) as H.
  apply Forall_inv in H. destruct H as (H1 & H2 & _). split; assumption.
Defined.

(** ** Baseline lookups inside the classifier *)









(** ** Ranking: ties and sorted input *)

Lemma key_ltb_iff (a b : Q * Q) :
  key_ltb a b = true
  <-> fst a < fst b \/ (fst a == fst b /\ snd a < snd b).
Proof.
  unfold key_ltb.
  rewrite orb_true_iff, andb_true_iff, !Qlt_bool_iff, Qeq_bool_iff. tauto.
Qed.

Lemma key_eqb_iff (a b : result_entry) :
  key_eqb a b = true
  <-> e_point_delta a == e_point_delta b /\ e_delta a == e_delta b.
Proof.
  unfold key_eqb. rewrite andb_true_iff, !negb_true_iff.
  split.
  - intros [H1 H2].
    assert (N1 : ~ (key_ltb (sort_key a) (sort_key b) = true)) by congruence.
    assert (N2 : ~ (key_ltb (sort_key b) (sort_key a) = true)) by congruence.
    rewrite key_ltb_iff in N1, N2. unfold sort_key in N1, N2. cbn [fst snd] in N1, N2.
    destruct (Q_dec (e_point_delta a) (e_point_delta b)) as [[K | K] | K];
      [exfalso; tauto | exfalso; tauto |].
    split; [exact K |].
    destruct (Q_dec (e_delta a) (e_delta b)) as [[L | L] | L];
      [exfalso; apply N1; tauto | exfalso; apply N2; right; split; [symmetry |]; assumption
      | exact L].
  - intros [H1 H2].
    split; (destruct (key_ltb _ _) eqn:E; [| reflexivity]);
      apply key_ltb_iff in E; unfold sort_key in E; cbn [fst snd] in E;
      exfalso; lra.
Qed.

Lemma insert_desc_filter (x a : result_entry) (s : list result_entry) :
  filter (key_eqb x) (insert_desc a s)
  = if key_eqb x a then a :: filter (key_eqb x) s else filter (key_eqb x) s.
Proof.
  induction s as [| y s IH]; cbn [insert_desc filter].
  - destruct (key_eqb x a); reflexivity.
  - destruct (key_ltb (sort_key a) (sort_key y)) eqn:Hlt; cbn [filter].
    + rewrite IH. destruct (key_eqb x a) eqn:Hxa; [| reflexivity].
      assert (Hxy : key_eqb x y = false).
      { destruct (key_eqb x y) eqn:Hxy; [| reflexivity].
        apply key_eqb_iff in Hxa, Hxy. apply key_ltb_iff in Hlt.
        unfold sort_key in Hlt. cbn [fst snd] in Hlt. exfalso. lra. }
      rewrite Hxy. reflexivity.
    + destruct (key_eqb x a); reflexivity.
Qed.

(** The sort is stable: entries with the same pair of deltas stay in the
    order in which they were appended. *)
Theorem sort_desc_stable (x : result_entry) (l : list result_entry) :
  filter (key_eqb x) (sort_desc l) = filter (key_eqb x) l.
Proof.
  induction l as [| a l IH]; [reflexivity |].
  cbn [sort_desc fold_right filter].
  change (fold_right insert_desc [] l) with (sort_desc l).
  rewrite insert_desc_filter, IH. reflexivity.
Qed.

Lemma ranks_before_not_ltb (x y : result_entry) :
  ranks_before x y -> key_ltb (sort_key x) (sort_key y) = false.
Proof.
  intros H. destruct (key_ltb (sort_key x) (sort_key y)) eqn:E; [| reflexivity].
  apply key_ltb_iff in E. unfold sort_key in E. cbn [fst snd] in E.
  unfold ranks_before in H. exfalso. lra.
Qed.

(** A list already in ranking order is returned as it is; so sorting
    twice changes nothing. *)
Theorem sort_desc_of_sorted :
  (forall l, Sorted ranks_before l -> sort_desc l = l)
  /\ (forall l, sort_desc (sort_desc l) = sort_desc l).
Proof.
  assert (H : forall l, Sorted ranks_before l -> sort_desc l = l).
  { induction l as [| x l IH]; intros Hs; [reflexivity |].
    inversion Hs as [| ? ? Hs' Hhd]; subst.
    cbn [sort_desc fold_right].
    change (fold_right insert_desc [] l) with (sort_desc l).
    rewrite (IH Hs').
    destruct l as [| y l]; [reflexivity |].
    inversion Hhd; subst. cbn [insert_desc].
    rewrite (ranks_before_not_ltb x y); [reflexivity | assumption]. }
  split; [exact H |].
  intros l. apply H. apply StronglySorted_Sorted. apply sort_desc_sorted.
Qed.

Lemma sort_desc_of_sorted_witness :
  sort_desc [entry_with 2 (3 # 10); entry_with 2 (1 # 10); entry_with 1 (9 # 10)]
  = [entry_with 2 (3 # 10); entry_with 2 (1 # 10); entry_with 1 (9 # 10)].
Proof.
  apply (proj1 sort_desc_of_sorted).
  repeat constructor; unfold ranks_before; cbn; lra.
Defined.

(** ** Writing the baseline ([store_props]) *)

Lemma fold_left_flat_map {A B C : Type} (f : A -> C -> A) (g : B -> list C)
    (l : list B) (a : A) :
  fold_left f (flat_map g l) a = fold_left (fun a' x => fold_left f (g x) a') l a.
Proof.
  revert a. induction l as [| x l IH]; intros a; cbn; [reflexivity |].
  rewrite fold_left_app. apply IH.
Qed.

Lemma fold_left_map {A B C : Type} (f : A -> C -> A) (g : B -> C)
    (l : list B) (a : A) :
  fold_left f (map g l) a = fold_left (fun a' x => f a' (g x)) l a.
Proof.
  revert a. induction l as [| x l IH]; intros a; cbn; [reflexivity | apply IH].
Qed.

Lemma fold_left_ext_in {A B : Type} (f g : A -> B -> A) (l : list B) :
  (forall a x, In x l -> f a x = g a x) ->
  forall a, fold_left f l a = fold_left g l a.
Proof.
  induction l as [| x l IH]; intros H a; cbn; [reflexivity |].
  rewrite (H a x (or_introl eq_refl)). apply IH.
  intros a' y Hy. apply H. right. exact Hy.
Qed.

(** [store_props] is the sequence of the writes of [rows_of]. *)
Lemma store_props_fold (convert_utc_to_et : string -> string) (t : table)
    (props_ : props) :
  store_props convert_utc_to_et t props_
  = fold_left insert_or_replace (rows_of convert_utc_to_et props_) t.
Proof.
  unfold store_props, rows_of. rewrite fold_left_flat_map.
  apply fold_left_ext_in. intros t1 b _.
  destruct (negb (bk_key b =? SELECTED_BOOK)); [reflexivity |].
  rewrite fold_left_flat_map.
  apply fold_left_ext_in. intros t2 m _.
  rewrite fold_left_map. reflexivity.
Qed.

Lemma in_rows_of (convert_utc_to_et : string -> string) (props_ : props) (r : row) :
  In r (rows_of convert_utc_to_et props_)
  <-> exists b m o,
        In b (p_bookmakers props_) /\ bk_key b = "pinnacle"
        /\ In m (bk_markets b) /\ In o (mk_outcomes m)
        /\ r = row_of convert_utc_to_et props_ m o.
Proof.
  unfold rows_of. rewrite in_flat_map. split.
  - intros (b & Hb & Hr).
    destruct (bk_key b =? SELECTED_BOOK) eqn:Hk; cbn [negb] in Hr; [| destruct Hr].
    apply in_flat_map in Hr. destruct Hr as (m & Hm & Hr).
    apply in_map_iff in Hr. destruct Hr as (o & <- & Ho).
    to_prop. exists b, m, o. tauto.
  - intros (b & m & o & Hb & Hk & Hm & Ho & ->).
    exists b. split; [exact Hb |].
    unfold SELECTED_BOOK. rewrite Hk. cbn.
    apply in_flat_map. exists m. split; [exact Hm |].
    apply in_map. exact Ho.
Qed.

Lemma same_key_iff (x r : row) : same_key x r = true <-> key_of x = key_of r.
Proof.
  unfold same_key, key_of. rewrite !andb_true_iff, !String.eqb_eq.
  split; [intros [[[-> ->] ->] ->]; reflexivity | intros E; injection E; tauto].
Qed.

Lemma NoDup_map_filter {A B : Type} (f : A -> B) (g : A -> bool) (l : list A) :
  NoDup (map f l) -> NoDup (map f (filter g l)).
Proof.
  induction l as [| x l IH]; cbn; intros H; [constructor |].
  inversion H as [| ? ? Hnot Hl]; subst.
  destruct (g x); cbn; [| apply IH; exact Hl].
  constructor; [| apply IH; exact Hl].
  intros Hin. apply Hnot. apply in_map_iff in Hin. destruct Hin as (y & Hy & Hin).
  apply filter_In in Hin. rewrite <- Hy. apply in_map. tauto.
Qed.

Lemma insert_or_replace_unique (t : table) (r : row) :
  NoDup (map key_of t) -> NoDup (map key_of (insert_or_replace t r)).
Proof.
  intros H. unfold insert_or_replace. rewrite map_app. cbn [map].
  apply Permutation_NoDup
    with (l := key_of r :: map key_of (filter (fun x => negb (same_key x r)) t)).
  - apply Permutation_cons_append.
  - constructor; [| apply NoDup_map_filter; exact H].
    intros Hin. apply in_map_iff in Hin. destruct Hin as (y & Hy & Hin).
    apply filter_In in Hin. destruct Hin as [_ Hn].
    apply negb_true_iff in Hn.
    assert (K : same_key y r = true) by (apply same_key_iff; exact Hy).
    congruence.
Qed.

(** The primary key stays a key: a table without two rows of one key
    has none after [store_props] either. *)
Theorem store_props_keeps_keys_unique (convert_utc_to_et : string -> string)
    (t : table) (props_ : props) :
  NoDup (map key_of t) ->
  NoDup (map key_of (store_props convert_utc_to_et t props_)).
Proof.
  rewrite store_props_fold. generalize (rows_of convert_utc_to_et props_).
  intros rows. revert t. induction rows as [| r rows IH]; intros t H; cbn.
  - exact H.
  - apply IH. apply insert_or_replace_unique. exact H.
Qed.

Lemma store_props_keeps_keys_unique_witness :
  NoDup (map key_of (store_props (fun s => s) baseline_over_example second_scan)).
Proof.
  apply (store_props_keeps_keys_unique (fun s => s) baseline_over_example second_scan).
  repeat constructor. intros [].
Defined.

Lemma fold_insert_split (rows : list row) (t : table) :
  fold_left insert_or_replace rows t
  = filter (fun x => negb (existsb (same_key x) rows)) t
    ++ fold_left insert_or_replace rows [].
Proof.
  revert t. induction rows as [| r rows IH]; intros t; cbn [fold_left existsb].
  - cbn. rewrite app_nil_r. induction t as [| x t IHt]; cbn; congruence.
  - rewrite IH. rewrite (IH (insert_or_replace [] r)).
    unfold insert_or_replace. cbn [filter app].
    rewrite filter_app, <- app_assoc. f_equal.
    induction t as [| x t IHt]; cbn [filter]; [reflexivity |].
    destruct (same_key x r); cbn [negb orb andb filter].
    + exact IHt.
    + destruct (existsb (same_key x) rows); cbn [negb]; [exact IHt |].
      f_equal. exact IHt.
Qed.

Lemma fold_insert_keys (rows : list row) (t : table) (x : row) :
  In x (fold_left insert_or_replace rows t) -> In x t \/ In x rows.
Proof.
  revert t. induction rows as [| r rows IH]; intros t H; cbn in H; [left; exact H |].
  destruct (IH _ H) as [Hin | Hin]; [| right; right; exact Hin].
  unfold insert_or_replace in Hin. apply in_app_or in Hin.
  destruct Hin as [Hin | [<- | []]].
  - apply filter_In in Hin. left. tauto.
  - right. left. reflexivity.
Qed.




(** Rows of other events are left as they are, in their order; and a
    payload without the reference book changes nothing. *)
Theorem store_props_other_events (convert_utc_to_et : string -> string)
    (t : table) (props_ : props) :
  filter (fun r => negb (event_id r =? p_id props_))
    (store_props convert_utc_to_et t props_)
  = filter (fun r => negb (event_id r =? p_id props_)) t
  /\ ((forall b, In b (p_bookmakers props_) -> bk_key b <> "pinnacle") ->
      store_props convert_utc_to_et t props_ = t).
Proof.
  rewrite store_props_fold. split.
  - assert (Hrows : forall r, In r (rows_of convert_utc_to_et props_) ->
                              event_id r = p_id props_).
    { intros r Hr. apply in_rows_of in Hr.
      destruct Hr as (b & m & o & _ & _ & _ & _ & ->). reflexivity. }
    revert t Hrows. generalize (rows_of convert_utc_to_et props_).
    induction l as [| r rows IH]; intros t Hrows; cbn [fold_left]; [reflexivity |].
    rewrite IH by (intros x Hx; apply Hrows; right; exact Hx).
    unfold insert_or_replace. rewrite filter_app. cbn [filter].
    rewrite (Hrows r (or_introl eq_refl)), String.eqb_refl. cbn [negb].
    rewrite app_nil_r.
    induction t as [| x t IHt]; cbn [filter]; [reflexivity |].
    destruct (same_key x r) eqn:Hk; cbn [negb filter].
    + apply same_key_iff in Hk. unfold key_of in Hk. injection Hk as Hid _ _ _.
      rewrite Hid, (Hrows r (or_introl eq_refl)), String.eqb_refl. cbn [negb].
      exact IHt.
    + destruct (negb (event_id x =? p_id props_)); [f_equal |]; exact IHt.
  - intros Hno.
    assert (E : rows_of convert_utc_to_et props_ = []).
    { destruct (rows_of convert_utc_to_et props_) as [| r rows] eqn:Hr; [reflexivity |].
      assert (Hin : In r (rows_of convert_utc_to_et props_)) by (rewrite Hr; left; reflexivity).
      apply in_rows_of in Hin. destruct Hin as (b & m & o & Hb & Hk & _).
      exfalso. exact (Hno b Hb Hk). }
    rewrite E. reflexivity.
Qed.

(** Storing the same payload twice leaves the table as the first store
    left it. *)
Theorem store_props_idempotent (convert_utc_to_et : string -> string)
    (t : table) (props_ : props) :
  store_props convert_utc_to_et (store_props convert_utc_to_et t props_) props_
  = store_props convert_utc_to_et t props_.
Proof.
  rewrite !store_props_fold. set (rows := rows_of convert_utc_to_et props_).
  rewrite (fold_insert_split rows (fold_left insert_or_replace rows t)).
  rewrite (fold_insert_split rows t) at 1 2.
  rewrite filter_app.
  assert (H1 : forall l : table,
             filter (fun x => negb (existsb (same_key x) rows))
               (filter (fun x => negb (existsb (same_key x) rows)) l)
             = filter (fun x => negb (existsb (same_key x) rows)) l).
  { induction l as [| x l IHl]; cbn [filter]; [reflexivity |].
    destruct (negb (existsb (same_key x) rows)) eqn:E; cbn [filter];
      [rewrite E; f_equal |]; exact IHl. }
  assert (H2 : filter (fun x => negb (existsb (same_key x) rows))
                 (fold_left insert_or_replace rows []) = []).
  { assert (Hall : forall x, In x (fold_left insert_or_replace rows []) ->
                             negb (existsb (same_key x) rows) = false).
    { intros x Hx. destruct (fold_insert_keys _ _ _ Hx) as [[] | Hin].
      apply negb_false_iff. apply existsb_exists. exists x. split; [exact Hin |].
      apply same_key_iff. reflexivity. }
    induction (fold_left insert_or_replace rows []) as [| x l IHl]; [reflexivity |].
    cbn [filter]. rewrite (Hall x (or_introl eq_refl)).
    apply IHl. intros y Hy. apply Hall. right. exact Hy. }
  rewrite H1, H2, app_nil_r. reflexivity.
Qed.

(** ** The purge, further *)

(** A row whose commence time did not convert (the empty text that
    [convert_utc_to_et] returns on an error) is removed by every purge. *)
Theorem purge_removes_unconverted (t : table) (now : aware_datetime) (r : row) :
  event_commence_time r = "" -> ~ In r (remove_commenced_games t now).
Proof.
  intros Hr Hin. unfold remove_commenced_games, delete_commenced in Hin.
  apply filter_In in Hin. destruct Hin as [_ Hc].
  rewrite Hr in Hc. discriminate Hc.
Qed.

Lemma purge_removes_unconverted_witness :
  ~ In (row_of (fun _ => "") first_scan
          (receptions_market [pin_over_55]) pin_over_55)
       (remove_commenced_games
          [row_of (fun _ => "") first_scan (receptions_market [pin_over_55]) pin_over_55]
          now_quarter_past).
Proof.
  apply purge_removes_unconverted. reflexivity.
Defined.

Lemma lex_base_100 (a b c d : N) :
  (b < 100)%N -> (d < 100)%N ->
  lex (N.compare a c) (N.compare b d) = N.compare (a * 100 + b) (c * 100 + d).
Proof.
  intros Hb Hd.
  destruct (N.compare_spec a c); destruct (N.compare_spec b d);
    destruct (N.compare_spec (a * 100 + b) (c * 100 + d)); cbn;
    try reflexivity; exfalso; lia.
Qed.

Lemma wall_compare_number (a b : wall_clock) :
  valid_wall a -> valid_wall b ->
  wall_compare a b = N.compare (wall_number a) (wall_number b).
Proof.
  intros (Hy & Hmo & Hd & Hh & Hmi & Hs) (Hy' & Hmo' & Hd' & Hh' & Hmi' & Hs').
  unfold wall_compare, wall_number.
  rewrite <- !lex_base_100 by assumption.
  destruct (N.compare (year a) (year b)), (N.compare (month a) (month b)),
    (N.compare (day a) (day b)), (N.compare (hour a) (hour b)),
    (N.compare (minute a) (minute b)); reflexivity.
Qed.

(** Purging is idempotent, and a later clock keeps no row that an
    earlier clock removed: a row kept by the purge at [later] is kept
    by the purge at [earlier]. *)
Theorem purge_monotone (t : table) (earlier later : aware_datetime) :
  remove_commenced_games (remove_commenced_games t later) later
  = remove_commenced_games t later
  /\ (valid_wall (wall earlier) -> valid_wall (wall later) ->
      wall_compare (wall earlier) (wall later) <> Gt ->
      forall r w zone,
        valid_wall w -> event_commence_time r = et_text w zone ->
        In r (remove_commenced_games t later) ->
        In r (remove_commenced_games t earlier)).
Proof.
  split.
  - unfold remove_commenced_games, delete_commenced.
    induction t as [| x t IH]; cbn [filter]; [reflexivity |].
    destruct (negb (String.ltb (event_commence_time x) (isoformat_space later))) eqn:E;
      cbn [filter]; [rewrite E; f_equal |]; exact IH.
  - intros He Hl Hle r w zone Hw Hr Hin.
    unfold remove_commenced_games, delete_commenced in *.
    apply filter_In in Hin. destruct Hin as [Hin Hc].
    apply filter_In. split; [exact Hin |].
    rewrite Hr in *. apply negb_true_iff in Hc. apply negb_true_iff.
    destruct (String.ltb (et_text w zone) (isoformat_space earlier)) eqn:E;
      [| reflexivity].
    apply (commence_text_before_now w zone earlier Hw He) in E.
    assert (K : (et_text w zone <? isoformat_space later) = true).
    { apply (commence_text_before_now w zone later Hw Hl).
      rewrite wall_compare_number in * by assumption.
      rewrite N.compare_lt_iff in *. rewrite N.compare_gt_iff in Hle. lia. }
    congruence.
Qed.

Lemma purge_monotone_witness :
  In (game_row "e2" (jan7 13 0 1))
     (remove_commenced_games
        [game_row "e1" (jan7 12 59 59); game_row "e2" (jan7 13 0 1)]
        now_on_the_second).
Proof.
  apply (proj2 (purge_monotone
                  [game_row "e1" (jan7 12 59 59); game_row "e2" (jan7 13 0 1)]
                  now_on_the_second now_quarter_past)
           (jan7_valid 13 0 0 eq_refl eq_refl eq_refl)
           (jan7_valid 13 0 0 eq_refl eq_refl eq_refl)
           ltac:(discriminate)
           (game_row "e2" (jan7 13 0 1)) (jan7 13 0 1) "EST"
           (jan7_valid 13 0 1 eq_refl eq_refl eq_refl) eq_refl).
  vm_compute. left. reflexivity.
Defined.

(** ** Classifying against the rows just stored *)






(** ** Partial results and turns of [main] *)

Lemma extends_refl (acc : results) : extends acc acc.
Proof. exists [], []. rewrite !app_nil_r. destruct acc; reflexivity. Qed.

Lemma extends_trans (a b c : results) : extends a b -> extends b c -> extends a c.
Proof.
  intros (d1 & s1 & ->) (d2 & s2 & ->). cbn [fst snd].
  exists (d1 ++ d2), (s1 ++ s2). rewrite !app_assoc. reflexivity.
Qed.

Lemma for_each_app {A S : Type} (body : A -> S -> S * option exn)
    (l1 l2 : list A) (s : S) :
  for_each body (l1 ++ l2) s
  = match for_each body l1 s with
    | (s', None) => for_each body l2 s'
    | (s', Some e) => (s', Some e)
    end.
Proof.
  revert s. induction l1 as [| x l1 IH]; intros s; cbn; [reflexivity |].
  destruct (body x s) as [s' [e |]]; [reflexivity | apply IH].
Qed.

Lemma bookmaker_body_extends (set_order : list string -> list string) (t : table)
    (ev ct : string) (pinnacle_data bk : bookmaker) (acc0 acc : results) :
  extends acc0 acc ->
  extends acc0 (fst (bookmaker_body set_order t ev ct pinnacle_data bk acc)).
Proof.
  intros Hacc. unfold bookmaker_body.
  destruct (bk_key bk =? "pinnacle"); [exact Hacc |].
  apply (for_each_invariant (extends acc0)); [| exact Hacc].
  intros mk s Hs. unfold market_body.
  destruct (find _ _) as [pm |]; [| exact Hs].
  destruct (add_projected_values set_order (mk_outcomes mk)); [| exact Hs].
  destruct (add_projected_values set_order (mk_outcomes pm)); [| exact Hs].
  apply (for_each_invariant (extends acc0)); [| exact Hs].
  intros o s' Hs'. unfold outcome_body.
  destruct (classify_outcome _ _ _ _ _ _ _) as [[[b e] |] | ex]; cbn [fst];
    try exact Hs'.
  apply (extends_trans _ _ _ Hs').
  destruct b; unfold append_to; [exists [e], [] | exists [], [e]];
    rewrite app_nil_r; reflexivity.
Qed.

(** An exception ends the scan but keeps what was found: the lists
    collected from a payload extend the lists collected from any
    leading part of its bookmakers, and are those lists when the leading
    part already ended in an exception. *)
Theorem collect_results_prefix (set_order : list string -> list string) (t : table)
    (p1 p2 : props) (ev ct : string) (pinnacle_data : bookmaker)
    (more : list bookmaker) :
  p_bookmakers p2 = p_bookmakers p1 ++ more ->
  let c1 := collect_results set_order t p1 ev ct pinnacle_data in
  let c2 := collect_results set_order t p2 ev ct pinnacle_data in
  extends (fst c1) (fst c2)
  /\ (forall e, snd c1 = Some e -> c2 = c1).
Proof.
  intros Hbooks. cbv zeta. unfold collect_results. rewrite Hbooks, for_each_app.
  destruct (for_each (bookmaker_body set_order t ev ct pinnacle_data)
              (p_bookmakers p1) ([], [])) as [acc1 [e1 |]]; cbn [fst snd].
  - split; [apply extends_refl | reflexivity].
  - split; [| discriminate].
    apply (for_each_invariant (extends acc1)); [| apply extends_refl].
    intros bk s Hs. apply bookmaker_body_extends. exact Hs.
Qed.

Lemma collect_results_prefix_witness :
  collect_results first_occurrence_order []
    (scan_of "e1" ([pinnacle_book; zero_over_book] ++ [yes_book]))
    "NYJ @ BUF" "2024-01-07 13:00:00" pinnacle_book
  = collect_results first_occurrence_order []
      (scan_of "e1" [pinnacle_book; zero_over_book])
      "NYJ @ BUF" "2024-01-07 13:00:00" pinnacle_book.
Proof.
  apply (proj2 (collect_results_prefix first_occurrence_order []
                  (scan_of "e1" [pinnacle_book; zero_over_book])
                  (scan_of "e1" ([pinnacle_book; zero_over_book] ++ [yes_book]))
                  "NYJ @ BUF" "2024-01-07 13:00:00" pinnacle_book [yes_book]
                  eq_refl) ValueError).
  reflexivity.
Defined.

Lemma rows_of_without_reference (convert_utc_to_et : string -> string)
    (props_ : props) :
  (forall b, In b (p_bookmakers props_) -> bk_key b <> "pinnacle") ->
  rows_of convert_utc_to_et props_ = [].
Proof.
  intros Hno.
  destruct (rows_of convert_utc_to_et props_) as [| r rows] eqn:Hr; [reflexivity |].
  assert (Hin : In r (rows_of convert_utc_to_et props_)) by (rewrite Hr; left; reflexivity).
  apply in_rows_of in Hin. destruct Hin as (b & m & o & Hb & Hk & _).
  exfalso. exact (Hno b Hb Hk).
Qed.

(** A turn of [main] whose fetch failed, or whose payload lacks the
    reference book, changes neither the table nor the two result lists. *)
Theorem main_step_without_reference_book (set_order : list string -> list string)
    (convert_utc_to_et : string -> string) (ev : event) (props_ : props)
    (st : table * results) :
  main_step set_order convert_utc_to_et ev None st = st
  /\ ((forall b, In b (p_bookmakers props_) -> bk_key b <> "pinnacle") ->
      main_step set_order convert_utc_to_et ev (Some props_) st = st).
Proof.
  split; [reflexivity |]. intros Hno. unfold main_step.
  rewrite store_props_fold, (rows_of_without_reference _ _ Hno). cbn [fold_left].
  unfold find_favorable_lines.
  destruct (find (fun b => bk_key b =? "pinnacle") (p_bookmakers props_))
    as [pd |] eqn:Hfind.
  - apply find_some in Hfind. destruct Hfind as [Hin Hk]. to_prop.
    exfalso. exact (Hno pd Hin Hk).
  - destruct st; reflexivity.
Qed.

Lemma main_step_without_reference_book_witness :
  main_step first_occurrence_order (fun s => s) the_event
    (Some (scan_of "e1" [yes_book])) (baseline_over_example, ([], []))
  = (baseline_over_example, ([], [])).
Proof.
  apply (proj2 (main_step_without_reference_book first_occurrence_order (fun s => s)
                  the_event (scan_of "e1" [yes_book])
                  (baseline_over_example, ([], [])))).
  intros b [<- | []]. discriminate.
Defined.


(** A zero price on the compared outcome ([zero_price_outcome_skipped]):
    no entry and no exception. *)
Lemma zero_price_outcome_skipped_witness :
  classify_outcome [] "NYJ @ BUF" "2024-01-07 13:00:00" yes_book
    (td_market [yes_at "Player B" 0]) [yes_at "Player B" 110] (yes_at "Player B" 0)
  = Ok None.
Proof.
  apply (zero_price_outcome_skipped [] "NYJ @ BUF" "2024-01-07 13:00:00" yes_book
           (td_market [yes_at "Player B" 0]) [yes_at "Player B" 110]
           (yes_at "Player B" 0) (yes_at "Player B" 110)).
  - reflexivity.
  - right. reflexivity.
Defined.

(** ** A reference outcome without a point *)


